(** * GauFRe feature extraction: stride-grid padding and most-visible-view selection

    A shallow embedding of [extract_features.py]: the padding arithmetic that
    aligns a frame to the 14-pixel patch grid, the scan that keeps for every
    object directory the frame with the largest mask, the masked crop handed
    to the embedding model, the embedding table, and the image-loading loop of
    the script's entry point.

    The two networks (DINOv2 and CLIP), the image decoders and the array
    files written to disk are outside the model: they appear as fields of an
    environment record where a result of theirs is used, and their calls are
    taken to return. The reflection padding in front of the patch encoder is
    in the model as far as it can refuse a frame. *)

From Stdlib Require Import ZArith Lia List.
From stdpp Require Import base tactics option list strings sorting.

Local Open Scope Z_scope.

(** ** Python exceptions and the error monad *)

Inductive exn : Type :=
| AssertionError
| FileNotFoundError
| ValueError
| KeyError
| IndexError
| NameError
| AttributeError
| ZeroDivisionError
| RuntimeError.

Inductive py (A : Type) : Type :=
| Ret (a : A)
| Raise (e : exn).

Arguments Ret {A} a.
Arguments Raise {A} e.

Definition py_bind {A B : Type} (m : py A) (k : A -> py B) : py B :=
  match m with
  | Ret a => k a
  | Raise e => Raise e
  end.

Notation "'let*' x ':=' m 'in' k" := (py_bind m (fun x => k))
  (at level 10, x pattern, m at level 100, k at level 200).

(** [assert cond] *)
Definition py_assert (cond : bool) : py unit :=
  if cond then Ret tt else Raise AssertionError.

(** A value that is there, or the exception its absence raises. *)
Definition or_raise {A : Type} (e : exn) (o : option A) : py A :=
  match o with
  | Some a => Ret a
  | None => Raise e
  end.

(** A [for] loop threading a state and stopping at the first exception. *)
Fixpoint py_for {A S : Type} (body : S -> A -> py S) (xs : list A) (s : S) : py S :=
  match xs with
  | [] => Ret s
  | x :: xs' => let* s' := body s x in py_for body xs' s'
  end.

(** ** Integer arithmetic of the script

    [ceil(a / b)] and [floor(a / b)] take the true quotient of two Python
    integers and round it; for the sizes of an image the quotient is exact
    enough that the result is the integer ceiling or floor, which is what is
    modelled. [a // b] is floor division. *)

Definition py_floor_div (a b : Z) : Z := a / b.
Definition py_ceil_div (a b : Z) : Z := - ((- a) / b).

(** ** Grid Aligner: lines 47-53 and 66-71 *)

Module GridAligner.

Definition STRIDE : Z := 14.

Record dino_crop : Type := {
  padding_top : Z;
  padding_bottom : Z;
  padding_left : Z;
  padding_right : Z
}.

Record StrideGrid : Type := {
  H_14 : Z;
  W_14 : Z;
  crop : dino_crop
}.

(** The padding computed for a frame of shape (H, W, _), with the [assert]
    of line 50. *)
Definition align (H W : Z) : py StrideGrid :=
  let H_14 := py_ceil_div H 14 * 14 in
  let W_14 := py_ceil_div W 14 * 14 in
  let padding_top := py_ceil_div (H_14 - H) 2 in
  let padding_bottom := py_floor_div (H_14 - H) 2 in
  let padding_left := py_ceil_div (W_14 - W) 2 in
  let padding_right := py_floor_div (W_14 - W) 2 in
  let* _ := py_assert ((H + padding_top + padding_bottom =? H_14)
                       && (W + padding_left + padding_right =? W_14)) in
  Ret {| H_14 := H_14; W_14 := W_14;
         crop := {| padding_top := padding_top;
                    padding_bottom := padding_bottom;
                    padding_left := padding_left;
                    padding_right := padding_right |} |}.

(** Shape of the reshaped patch features, line 63: (H_14 // 14, W_14 // 14). *)
Definition grid_shape (g : StrideGrid) : Z * Z :=
  (py_floor_div (H_14 g) 14, py_floor_div (W_14 g) 14).

(** The cell a pixel of the unpadded frame falls in. *)
Definition grid_cell (g : StrideGrid) (y x : Z) : Z * Z :=
  (py_floor_div (y + padding_top (crop g)) 14,
   py_floor_div (x + padding_left (crop g)) 14).

End GridAligner.

(** ** Pixel arrays

    [np.array(img.convert("RGB"))] is an array of shape (H, W, 3) with
    unsigned 8-bit entries: a list of rows, each a list of pixels, each a
    list of channel values. *)

Abbreviation Tensor := (list (list (list Z))).

Module Numpy.

Definition entries (t : Tensor) : list Z := concat (concat t).

Definition pixel (t : Tensor) (y x c : nat) : option Z :=
  row ← t !! y; px ← row !! x; px !! c.

(** The entries fit the array's type, unsigned 8-bit. *)
Definition uint8 (t : Tensor) : Prop :=
  Forall (fun v => 0 <= v < 256) (entries t).

(** Two arrays of one shape: as many rows, and at each place as many pixels
    and as many channels. *)
Definition same_shape (a b : Tensor) : Prop :=
  Forall2 (Forall2 (fun p q : list Z => length p = length q)) a b.

Definition tmap (f : Z -> Z) (t : Tensor) : Tensor :=
  (fun row : list (list Z) => (fun px : list Z => f <$> px) <$> row) <$> t.

(** [t.max()]: an array without entries has no maximum. *)
Definition np_max (t : Tensor) : py Z :=
  match entries t with
  | [] => Raise ValueError
  | v :: vs => Ret (fold_left Z.max vs v)
  end.

(** [t.sum()]: the entries are added in a 64-bit accumulator, which an
    array of 8-bit entries held in memory cannot overflow. *)
Definition np_sum (t : Tensor) : Z := foldr Z.add 0 (entries t).

(** [t //= d] on unsigned entries; numpy gives 0 where [d] is 0, as [Z.div]
    does. *)
Definition floor_div_scalar (t : Tensor) (d : Z) : Tensor :=
  tmap (fun v => py_floor_div v d) t.

(** Broadcasting along one axis: equal lengths pair up, a length of one is
    repeated, anything else is a shape error. *)
Fixpoint py_mapM {A B : Type} (f : A -> py B) (xs : list A) : py (list B) :=
  match xs with
  | [] => Ret []
  | x :: xs' => let* y := f x in let* ys := py_mapM f xs' in Ret (y :: ys)
  end.

Definition broadcast {A B C : Type} (f : A -> B -> py C)
    (xs : list A) (ys : list B) : py (list C) :=
  if decide (length xs = length ys)
  then py_mapM (fun p => f p.1 p.2) (zip xs ys)
  else match xs, ys with
       | [x], _ => py_mapM (f x) ys
       | _, [y] => py_mapM (fun x => f x y) xs
       | _, _ => Raise ValueError
       end.

(** The product of two unsigned 8-bit values, kept in 8 bits. *)
Definition mul_uint8 (a b : Z) : Z := (a * b) mod 256.

(** [a * b] on two arrays of unsigned 8-bit entries. *)
Definition np_mul (a b : Tensor) : py Tensor :=
  broadcast (broadcast (broadcast (fun x y => Ret (mul_uint8 x y)))) a b.

(** Lines 81 and 105: [mask_data //= max(1, mask_data.max())]. *)
Definition divisor (mask_data : Tensor) : py Z :=
  let* m := np_max mask_data in Ret (Z.max 1 m).

Definition binarize (mask_data : Tensor) : py Tensor :=
  let* d := divisor mask_data in Ret (floor_div_scalar mask_data d).

End Numpy.

(** ** Python dictionaries with string keys

    A [dict] keeps its keys in insertion order; assigning to a key that is
    present keeps the key's place. *)

Module Dict.

Fixpoint getitem {V : Type} (d : list (string * V)) (k : string) : option V :=
  match d with
  | [] => None
  | (k', v) :: d' => if decide (k = k') then Some v else getitem d' k
  end.

Fixpoint setitem {V : Type} (d : list (string * V)) (k : string) (v : V)
    : list (string * V) :=
  match d with
  | [] => [(k, v)]
  | (k', v') :: d' =>
      if decide (k = k') then (k, v) :: d' else (k', v') :: setitem d' k v
  end.

Definition keys {V : Type} (d : list (string * V)) : list string := d.*1.

End Dict.

(** ** The world outside the script

    The mask and image files found on disk, PIL's resampling, the CLIP
    encoder with its preprocessing, and the floating-point rescaling of the
    entry point. *)

Record Env : Type := {
  (** [np.array(Image.open(mask_dir/dir/name).convert("RGB"))], when the file
      exists *)
  open_mask : string -> string -> option Tensor;
  (** the RGB array of [Image.open(images_dir/file)], when the file exists *)
  open_rgb : string -> option Tensor;
  (** [img.resize((W, H))], a new image *)
  resize : Tensor -> Z * Z -> Tensor;
  (** a row of the embedding table *)
  Row : Type;
  zero_row : Row;
  (** [clip.encode_image(preprocess(Image.fromarray(a)))] as a row *)
  encode_image : Tensor -> Row;
  (** [int(n / float(num / den))] *)
  int_div_float : Z -> Z -> Z -> Z
}.

(** ** extract_features *)

Module ExtractFeatures.

(** An entry of [image_list]: the shape of the tensor and the file name; the
    pixel values only reach the patch encoder. *)
Record Frame : Type := {
  shape : Z * Z;
  file : string
}.

(** [most_visible]: per directory the pair [sum, file]. *)
Abbreviation Visible := (list (string * (Z * string))).

(** Lines 82-85. *)
Definition update (most_visible : Visible) (dir : string) (score : Z)
    (file : string) : Visible :=
  match Dict.getitem most_visible dir with
  | None => Dict.setitem most_visible dir (score, file)
  | Some (best, _) =>
      if score >? best
      then Dict.setitem most_visible dir (score, file)
      else most_visible
  end.

(** Lines 76-81: the mask of one directory for one frame is opened, resized
    (the resized image is dropped), made binary and summed. *)
Definition visibility_score (env : Env) (frame : Frame) (dir : string) : py Z :=
  let '(H, W) := shape frame in
  let* mask := or_raise FileNotFoundError
                 (open_mask env dir (file frame +:+ ".png")) in
  let _ := resize env mask (W, H) in
  let* mask_data := Numpy.binarize mask in
  Ret (Numpy.np_sum mask_data).

(** Lines 76-85: one directory of one frame. *)
Definition scan_mask (env : Env) (frame : Frame)
    (most_visible : Visible) (dir : string) : py Visible :=
  let* score := visibility_score env frame dir in
  Ret (update most_visible dir score (file frame)).

(** Lines 54-59: [nn.ReflectionPad2d((left, right, top, bottom))] mirrors a
    frame of H rows and W columns at its border, and raises RuntimeError
    unless every padding is below the side it is taken from. *)
Definition reflection_pad_fits (H W : Z) (c : GridAligner.dino_crop) : bool :=
  (GridAligner.padding_left c <? W) && (GridAligner.padding_right c <? W)
  && (GridAligner.padding_top c <? H) && (GridAligner.padding_bottom c <? H).

(** Lines 44-86: one frame. The padding is computed and checked, the frame
    is padded, the patch features and the padding are written out, then
    every directory is visited. *)
Definition scan_frame (env : Env) (dirs : list string)
    (most_visible : Visible) (frame : Frame) : py Visible :=
  let '(H, W) := shape frame in
  let* g := GridAligner.align H W in
  let* _ := (if reflection_pad_fits H W (GridAligner.crop g)
             then Ret tt else Raise RuntimeError) in
  py_for (scan_mask env frame) dirs most_visible.

(** Lines 40-87. *)
Definition scan (env : Env) (image_list : list Frame) (dirs : list string)
    : py Visible :=
  py_for (scan_frame env dirs) image_list [].

(** [sorted(dirs)]: strings compare character by character, left to right;
    on the bytes of their UTF-8 form, as here, the order is the same. Any
    sorting algorithm gives this list ([sorted_unique] below). *)
Definition sorted (dirs : list string) : list string :=
  merge_sort String.le dirs.

Fixpoint enumerate {A : Type} (start : nat) (xs : list A) : list (nat * A) :=
  match xs with
  | [] => []
  | x :: xs' => (start, x) :: enumerate (S start) xs'
  end.

(** Line 90: [{dir_name: idx for idx, dir_name in enumerate(sorted(dirs))}]. *)
Definition dir_to_idx (dirs : list string) : list (string * nat) :=
  fold_left (fun d p => Dict.setitem d p.2 p.1) (enumerate 0 (sorted dirs)) [].

(** Lines 96-106: the image of the chosen frame with everything outside the
    object's mask set to zero. The product of line 106 takes the opened
    image itself, whose array is the RGB array for an RGB file. *)
Definition masked_crop (env : Env) (dir file : string) : py Tensor :=
  let* image := or_raise FileNotFoundError (open_rgb env file) in
  let* mask := or_raise FileNotFoundError
                 (open_mask env dir (file +:+ ".png")) in
  let* mask_data := Numpy.binarize mask in
  Numpy.np_mul mask_data image.

(** [clip_embeddings[idx, :] = row] *)
Definition set_row {R : Type} (clip_embeddings : list R) (idx : nat) (row : R)
    : py (list R) :=
  if decide (idx < length clip_embeddings)%nat
  then Ret (<[idx := row]> clip_embeddings)
  else Raise IndexError.

(** Lines 95-110: one directory of the second loop. *)
Definition embed_object (env : Env) (most_visible : Visible)
    (dir_to_idx : list (string * nat)) (clip_embeddings : list (Row env))
    (dir : string) : py (list (Row env)) :=
  let* (_, file) := or_raise KeyError (Dict.getitem most_visible dir) in
  let* masked_image := masked_crop env dir file in
  let clip_embedding := encode_image env masked_image in
  let* idx := or_raise KeyError (Dict.getitem dir_to_idx dir) in
  set_row clip_embeddings idx clip_embedding.

(** Lines 90-113: the table that is saved. *)
Definition embed_all (env : Env) (dirs : list string) (most_visible : Visible)
    : py (list (Row env)) :=
  let dir_to_idx := dir_to_idx dirs in
  let clip_embeddings := replicate (length most_visible) (zero_row env) in
  py_for (embed_object env most_visible dir_to_idx)
         (Dict.keys most_visible) clip_embeddings.

(** Lines 40-113, for the directories [dirs] that line 39 lists under the
    mask directory. *)
Definition extract_features (env : Env) (image_list : list Frame)
    (dirs : list string) : py (list (Row env)) :=
  let* most_visible := scan env image_list dirs in
  embed_all env dirs most_visible.

End ExtractFeatures.

(** ** Notions used to state and prove the properties *)

(** The record a directory holds after one more observation, given the
    record it held before (none before its first observation). *)
Definition keep_best (r : option (Z * string)) (o : Z * string) : Z * string :=
  match r with
  | None => o
  | Some (best, f) => if o.1 >? best then o else (best, f)
  end.

(** The record of a directory after a run of frames, from the record [r]. *)
Definition best_after (env : Env) (dir : string)
    (frames : list ExtractFeatures.Frame) (r : option (Z * string))
    : option (Z * string) :=
  fold_left
    (fun r frame =>
       match ExtractFeatures.visibility_score env frame dir with
       | Ret score => Some (keep_best r (score, ExtractFeatures.file frame))
       | Raise _ => r
       end)
    frames r.

(** The row written for a directory, given the records. *)
Definition row_of (env : Env) (most_visible : list (string * (Z * string)))
    (dir : string) : Row env :=
  match Dict.getitem most_visible dir with
  | Some (_, file) =>
      match ExtractFeatures.masked_crop env dir file with
      | Ret crop => encode_image env crop
      | Raise _ => zero_row env
      end
  | None => zero_row env
  end.

(** ** The entry point: lines 141-166 *)

Module Driver.

(** The module's global names that the loop reads or writes: [WARNED] is
    bound or not. *)
Record Globals : Type := {
  WARNED : option bool
}.

(** The names bound when the loop starts: nothing assigns [WARNED] before. *)
Definition initial_globals : Globals := {| WARNED := None |}.

(** What the loop has built: the globals, the lines printed, and [img_list]
    as pairs of the resized shape (width, height) and the file name. *)
Record State : Type := {
  globals : Globals;
  printed : list string;
  img_list : list ((Z * Z) * string)
}.

(** [global_down]: the integer 1 or a quotient of two integers. *)
Inductive Scale : Type :=
| One
| Quotient (num den : Z).

(** [int(n / float(global_down))] *)
Definition rescale (env : Env) (n : Z) (global_down : Scale) : Z :=
  match global_down with
  | One => n
  | Quotient num den => int_div_float env n num den
  end.

Definition large_image_warning : string :=
  "[ INFO ] Encountered quite large input images (>1080P), rescaling to 1080P.".

(** Lines 147-159. *)
Definition choose_scale (downsample : Z) (orig_w orig_h : Z) (st : State)
    : py (State * Scale) :=
  if downsample =? -1 then
    if orig_h >? 1080 then
      let* warned := or_raise NameError (WARNED (globals st)) in
      let st' :=
        if negb warned
        then {| globals := {| WARNED := Some true |};
                printed := printed st ++ [large_image_warning];
                img_list := img_list st |}
        else st in
      Ret (st', Quotient orig_h 1080)
    else Ret (st, One)
  else
    if downsample =? 0 then Raise ZeroDivisionError
    else Ret (st, Quotient orig_w downsample).

(** Lines 144-166: one file; [image] is what [cv2.imread] returned, the
    shape (height, width) of the decoded image or nothing. The call of
    [cv2.resize] at line 164 is taken to return: with downsample -1 and a
    height of at most 1080 it is given the image's own size. *)
Definition load_image (env : Env) (downsample : Z) (st : State)
    (entry : string * option (Z * Z)) : py State :=
  let '(file, image) := entry in
  let* (orig_h, orig_w) := or_raise AttributeError image in
  let* (st', global_down) := choose_scale downsample orig_w orig_h st in
  let resolution := (rescale env orig_w global_down,
                     rescale env orig_h global_down) in
  Ret {| globals := globals st';
         printed := printed st';
         img_list := img_list st' ++ [(resolution, file)] |}.

Definition main_loop (env : Env) (downsample : Z) (g : Globals)
    (files : list (string * option (Z * Z))) : py State :=
  py_for (load_image env downsample) files
         {| globals := g; printed := []; img_list := [] |}.

End Driver.

(** ** Small worlds for the examples *)

(** A world given by its mask files, per directory and file name, and by its
    image files. Resizing and encoding leave an array as it is, so that a
    row of the table shows the crop it was computed from. *)
Definition world (masks : list (string * list (string * Tensor)))
    (images : list (string * Tensor)) : Env :=
  {| open_mask := fun dir name => d ← Dict.getitem masks dir; Dict.getitem d name;
     open_rgb := Dict.getitem images;
     resize := fun t _ => t;
     Row := Tensor;
     zero_row := [];
     encode_image := fun t => t;
     int_div_float := fun n num den => n * den / num |}.

(** Images of one row and two pixels. *)
Definition photo : Tensor := [[[10; 20; 30]; [40; 50; 60]]].
Definition blank : Tensor := [[[0; 0; 0]; [0; 0; 0]]].
Definition half : Tensor := [[[255; 255; 255]; [0; 0; 0]]].
Definition full : Tensor := [[[255; 255; 255]; [255; 255; 255]]].
Definition gray : Tensor := [[[100; 100; 100]; [255; 255; 255]]].

Definition frame1 : ExtractFeatures.Frame :=
  {| ExtractFeatures.shape := (100, 150); ExtractFeatures.file := "0001.png" |}.
Definition frame2 : ExtractFeatures.Frame :=
  {| ExtractFeatures.shape := (100, 150); ExtractFeatures.file := "0002.png" |}.

(** Two frames and two objects; the table is never visible. *)
Definition example_world : Env :=
  world [("table", [("0001.png.png", blank); ("0002.png.png", blank)]);
         ("chair", [("0001.png.png", half); ("0002.png.png", full)])]
        [("0001.png", photo); ("0002.png", photo)].

(** The same, the table's mask for the second frame missing. *)
Definition example_world_missing : Env :=
  world [("table", [("0001.png.png", blank)]);
         ("chair", [("0001.png.png", half); ("0002.png.png", full)])]
        [("0001.png", photo); ("0002.png", photo)].

(** ** Patch features: lines 60-65

    The tokens of the patch encoder, one list of channel values per patch,
    are laid out on the grid. Tensors are nested lists, the batch of one
    left out; a result that is not there stands for the RuntimeError of
    [torch.reshape] on a tensor with another number of entries. *)

Module PatchFeatures.

Definition DINO_FEATURES : nat := 768.

(** [rearrange(x, "b s c -> b c s")] for [x] of shape (1, s, c). *)
Definition rearrange_bsc_bcs {F : Type} (c : nat) (x : list (list F))
    : option (list (list F)) :=
  mapM (fun k => mapM (fun tok : list F => tok !! k) x) (seq 0 c).

(** The first [count] pieces of [n] entries of a list. *)
Fixpoint chunks {A : Type} (n count : nat) (l : list A) : list (list A) :=
  match count with
  | O => []
  | S count' => take n l :: chunks n count' (drop n l)
  end.

(** [torch.reshape(x, (1, C, h, w))]: the entries in row-major order are
    cut into C blocks of h rows of w entries. *)
Definition reshape {F : Type} (x : list (list F)) (C h w : nat)
    : option (list (list (list F))) :=
  let flat := concat x in
  if decide (length flat = (C * (h * w))%nat)
  then Some (chunks w h <$> chunks (h * w) C flat)
  else None.

(** [rearrange(x, "b c h w -> b h w c")] for [x] of shape (1, C, h, w). *)
Definition rearrange_bchw_bhwc {F : Type} (C h w : nat)
    (x : list (list (list F))) : option (list (list (list F))) :=
  mapM (fun i =>
    mapM (fun j =>
      mapM (fun k => block ← x !! k; row ← block !! i; row !! j) (seq 0 C))
      (seq 0 w))
    (seq 0 h).

(** Lines 60-65, for tokens of [c] channels and the grid of a frame. *)
Definition dino_features {F : Type} (g : GridAligner.StrideGrid) (c : nat)
    (x_norm_patchtokens : list (list F)) : option (list (list (list F))) :=
  let '(h, w) := GridAligner.grid_shape g in
  x ← rearrange_bsc_bcs c x_norm_patchtokens;
  x ← reshape x DINO_FEATURES (Z.to_nat h) (Z.to_nat w);
  rearrange_bchw_bhwc DINO_FEATURES (Z.to_nat h) (Z.to_nat w) x.

End PatchFeatures.

(** ** Shapes *)

(** An array of [h] rows, [w] pixels a row and [c] channels a pixel. *)
Definition has_shape (t : Tensor) (h w c : nat) : Prop :=
  length t = h /\
  Forall (fun row : list (list Z) =>
            length row = w /\ Forall (fun px : list Z => length px = c) row) t.

(** ** Facts about the arithmetic *)

Lemma py_ceil_div_spec (a b : Z) :
  0 < b -> b * (py_ceil_div a b - 1) < a <= b * py_ceil_div a b.
Proof.
  intros Hb. unfold py_ceil_div.
  pose proof (Z.div_mod (- a) b ltac:(lia)) as Hdm.
  pose proof (Z.mod_pos_bound (- a) b Hb) as Hm.
  nia.
Qed.

Lemma py_floor_div_spec (a b : Z) :
  0 < b -> b * py_floor_div a b <= a < b * (py_floor_div a b + 1).
Proof.
  intros Hb. unfold py_floor_div.
  pose proof (Z.div_mod a b ltac:(lia)) as Hdm.
  pose proof (Z.mod_pos_bound a b Hb) as Hm.
  nia.
Qed.

Lemma py_ceil_floor_half (d : Z) :
  py_ceil_div d 2 + py_floor_div d 2 = d /\
  0 <= py_ceil_div d 2 - py_floor_div d 2 <= 1.
Proof.
  pose proof (py_ceil_div_spec d 2 ltac:(lia)).
  pose proof (py_floor_div_spec d 2 ltac:(lia)).
  lia.
Qed.

Lemma grid_size_bounds (n : Z) :
  n <= py_ceil_div n 14 * 14 < n + 14.
Proof.
  pose proof (py_ceil_div_spec n 14 ltac:(lia)). lia.
Qed.

Lemma align_returns (H W : Z) :
  GridAligner.align H W =
  Ret {| GridAligner.H_14 := py_ceil_div H 14 * 14;
         GridAligner.W_14 := py_ceil_div W 14 * 14;
         GridAligner.crop :=
           {| GridAligner.padding_top := py_ceil_div (py_ceil_div H 14 * 14 - H) 2;
              GridAligner.padding_bottom := py_floor_div (py_ceil_div H 14 * 14 - H) 2;
              GridAligner.padding_left := py_ceil_div (py_ceil_div W 14 * 14 - W) 2;
              GridAligner.padding_right := py_floor_div (py_ceil_div W 14 * 14 - W) 2 |} |}.
Proof.
  unfold GridAligner.align.
  destruct (py_ceil_floor_half (py_ceil_div H 14 * 14 - H)) as [HsH _].
  destruct (py_ceil_floor_half (py_ceil_div W 14 * 14 - W)) as [HsW _].
  replace (_ =? _) with true by (symmetry; apply Z.eqb_eq; lia).
  replace (_ =? _) with true by (symmetry; apply Z.eqb_eq; lia).
  reflexivity.
Qed.

(** ** The Grid Aligner *)

(** C1. For a frame of height H >= 1 and width W >= 1 the aligner returns
    (its assertion holds) the grid sizes ceil(H/14)*14 and ceil(W/14)*14 and
    the paddings ceil and floor of half the difference; top and bottom add up
    to gridH - H, left and right to gridW - W, each pair differs by at most
    one. A 100 x 150 frame gets the grid 112 x 154 and the paddings 6, 6, 2, 2. *)
Theorem align_padding_balanced (H W : Z) :
  1 <= H -> 1 <= W ->
  exists g : GridAligner.StrideGrid,
    GridAligner.align H W = Ret g /\
    GridAligner.H_14 g = py_ceil_div H GridAligner.STRIDE * GridAligner.STRIDE /\
    GridAligner.W_14 g = py_ceil_div W GridAligner.STRIDE * GridAligner.STRIDE /\
    (let c := GridAligner.crop g in
     let dH := GridAligner.H_14 g - H in
     let dW := GridAligner.W_14 g - W in
     GridAligner.padding_top c = py_ceil_div dH 2 /\
     GridAligner.padding_bottom c = py_floor_div dH 2 /\
     GridAligner.padding_left c = py_ceil_div dW 2 /\
     GridAligner.padding_right c = py_floor_div dW 2 /\
     GridAligner.padding_top c + GridAligner.padding_bottom c = dH /\
     GridAligner.padding_left c + GridAligner.padding_right c = dW /\
     Z.abs (GridAligner.padding_top c - GridAligner.padding_bottom c) <= 1 /\
     Z.abs (GridAligner.padding_left c - GridAligner.padding_right c) <= 1 /\
     H + GridAligner.padding_top c + GridAligner.padding_bottom c
       = GridAligner.H_14 g /\
     W + GridAligner.padding_left c + GridAligner.padding_right c
       = GridAligner.W_14 g /\
     0 <= GridAligner.padding_bottom c /\ 0 <= GridAligner.padding_right c /\
     H <= GridAligner.H_14 g < H + 14 /\ W <= GridAligner.W_14 g < W + 14) /\
    GridAligner.align 100 150 =
      Ret {| GridAligner.H_14 := 112; GridAligner.W_14 := 154;
             GridAligner.crop :=
               {| GridAligner.padding_top := 6; GridAligner.padding_bottom := 6;
                  GridAligner.padding_left := 2; GridAligner.padding_right := 2 |} |}.
Proof.
  intros HH HW. eexists. split; [apply align_returns|]. cbn [GridAligner.H_14
    GridAligner.W_14 GridAligner.crop GridAligner.padding_top
    GridAligner.padding_bottom GridAligner.padding_left GridAligner.padding_right].
  unfold GridAligner.STRIDE.
  pose proof (grid_size_bounds H) as BH. pose proof (grid_size_bounds W) as BW.
  destruct (py_ceil_floor_half (py_ceil_div H 14 * 14 - H)) as [SH DH].
  destruct (py_ceil_floor_half (py_ceil_div W 14 * 14 - W)) as [SW DW].
  pose proof (py_floor_div_spec (py_ceil_div H 14 * 14 - H) 2 ltac:(lia)).
  pose proof (py_floor_div_spec (py_ceil_div W 14 * 14 - W) 2 ltac:(lia)).
  repeat split; try reflexivity; try lia.
Qed.

Lemma align_padding_balanced_witness :
  exists g : GridAligner.StrideGrid,
    GridAligner.align 101 150 = Ret g /\
    GridAligner.padding_top (GridAligner.crop g) = 6 /\
    GridAligner.padding_bottom (GridAligner.crop g) = 5.
Proof.
  destruct (align_padding_balanced 101 150 ltac:(lia) ltac:(lia))
    as (g & Hg & _ & _ & _).
  exists g. split; [exact Hg|].
  assert (Ret g = GridAligner.align 101 150) as E by (symmetry; exact Hg).
  vm_compute in E. injection E as ->. split; reflexivity.
Defined.

(** C8. For a frame of height H >= 1 and width W >= 1 and a pixel (y, x) of
    the unpadded image, the cell ((y + padding_top) // 14,
    (x + padding_left) // 14) is a cell of the grid: its row is below
    H_14 // 14 and its column below W_14 // 14. *)
Theorem grid_cell_in_bounds (H W y x : Z) :
  1 <= H -> 1 <= W -> 0 <= y < H -> 0 <= x < W ->
  exists g : GridAligner.StrideGrid,
    GridAligner.align H W = Ret g /\
    0 <= (GridAligner.grid_cell g y x).1 < (GridAligner.grid_shape g).1 /\
    0 <= (GridAligner.grid_cell g y x).2 < (GridAligner.grid_shape g).2.
Proof.
  intros HH HW Hy Hx. eexists. split; [apply align_returns|].
  unfold GridAligner.grid_cell, GridAligner.grid_shape. cbn.
  pose proof (grid_size_bounds H) as BH. pose proof (grid_size_bounds W) as BW.
  destruct (py_ceil_floor_half (py_ceil_div H 14 * 14 - H)) as [SH DH].
  destruct (py_ceil_floor_half (py_ceil_div W 14 * 14 - W)) as [SW DW].
  pose proof (py_floor_div_spec (py_ceil_div H 14 * 14 - H) 2 ltac:(lia)) as FH.
  pose proof (py_floor_div_spec (py_ceil_div W 14 * 14 - W) 2 ltac:(lia)) as FW.
  set (pt := py_ceil_div (py_ceil_div H 14 * 14 - H) 2) in *.
  set (pl := py_ceil_div (py_ceil_div W 14 * 14 - W) 2) in *.
  set (gh := py_ceil_div H 14) in *. set (gw := py_ceil_div W 14) in *.
  unfold py_floor_div at 1 2 3 4 5 6.
  rewrite !Z.div_mul by lia.
  split; split.
  - apply Z.div_pos; lia.
  - apply Z.div_lt_upper_bound; lia.
  - apply Z.div_pos; lia.
  - apply Z.div_lt_upper_bound; lia.
Qed.

Lemma grid_cell_in_bounds_witness :
  exists g : GridAligner.StrideGrid,
    GridAligner.align 100 150 = Ret g /\
    0 <= (GridAligner.grid_cell g 99 149).1 < (GridAligner.grid_shape g).1 /\
    0 <= (GridAligner.grid_cell g 99 149).2 < (GridAligner.grid_shape g).2.
Proof.
  apply (grid_cell_in_bounds 100 150 99 149); lia.
Defined.

(** The paddings of a side are below the side exactly from 6 pixels on. *)
Lemma side_paddings_fit (n : Z) :
  (py_ceil_div (py_ceil_div n 14 * 14 - n) 2 <? n)
  && (py_floor_div (py_ceil_div n 14 * 14 - n) 2 <? n) = true <-> 6 <= n.
Proof.
  rewrite andb_true_iff, !Z.ltb_lt.
  pose proof (grid_size_bounds n) as B.
  pose proof (py_ceil_div_spec (py_ceil_div n 14 * 14 - n) 2 ltac:(lia)) as Hc.
  pose proof (py_floor_div_spec (py_ceil_div n 14 * 14 - n) 2 ltac:(lia)) as Hf.
  destruct (decide (8 <= n)) as [Hbig|Hsmall]; [lia|].
  destruct (decide (n <= 0)) as [Hneg|Hpos]; [lia|].
  assert (n = 1 \/ n = 2 \/ n = 3 \/ n = 4 \/ n = 5 \/ n = 6 \/ n = 7)
    as Hcases by lia.
  destruct Hcases as [->|[->|[->|[->|[->|[->| ->]]]]]]; vm_compute;
    split; try (intros [? ?]; discriminate); try (intros ?; exfalso; auto; fail);
    intros _; split; reflexivity.
Qed.

Lemma reflection_pad_fits_iff (H W : Z) :
  exists g : GridAligner.StrideGrid,
    GridAligner.align H W = Ret g /\
    (ExtractFeatures.reflection_pad_fits H W (GridAligner.crop g) = true
     <-> 6 <= H /\ 6 <= W).
Proof.
  eexists. split; [apply align_returns|].
  unfold ExtractFeatures.reflection_pad_fits.
  cbn [GridAligner.crop GridAligner.padding_top GridAligner.padding_bottom
       GridAligner.padding_left GridAligner.padding_right].
  rewrite <- (side_paddings_fit H), <- (side_paddings_fit W).
  rewrite !andb_true_iff. tauto.
Qed.

(** ** Arrays *)

Section numpy_facts.
Import Numpy.

Lemma fold_left_max_ge (vs : list Z) (v : Z) :
  v <= fold_left Z.max vs v /\ Forall (fun x => x <= fold_left Z.max vs v) vs.
Proof.
  revert v. induction vs as [|w vs IH]; intros v; cbn.
  - split; [lia | constructor].
  - destruct (IH (Z.max v w)) as [H1 H2]. split; [lia|].
    constructor; [lia | exact H2].
Qed.

Lemma fold_left_max_elem (vs : list Z) (v : Z) :
  fold_left Z.max vs v ∈ v :: vs.
Proof.
  revert v. induction vs as [|w vs IH]; intros v; cbn.
  - left.
  - specialize (IH (Z.max v w)). apply elem_of_cons in IH as [E|E].
    + rewrite E. destruct (Z.max_spec v w) as [[_ ->]|[_ ->]].
      * right. left.
      * left.
    + right. right. exact E.
Qed.

Lemma np_max_ret (t : Tensor) :
  entries t <> [] ->
  exists m, np_max t = Ret m /\ m ∈ entries t /\
            Forall (fun v => v <= m) (entries t).
Proof.
  intros Hne. unfold np_max. destruct (entries t) as [|v vs]; [done|].
  eexists. split; [reflexivity|]. split; [apply fold_left_max_elem|].
  destruct (fold_left_max_ge vs v) as [H1 H2]. constructor; assumption.
Qed.

Lemma np_max_raises (t : Tensor) :
  entries t = [] -> np_max t = Raise ValueError.
Proof. intros E. unfold np_max. rewrite E. reflexivity. Qed.

Lemma concat_fmap_fmap {A B : Type} (f : A -> B) (ls : list (list A)) :
  concat ((fun l : list A => f <$> l) <$> ls) = f <$> concat ls.
Proof.
  induction ls as [|l ls IH]; cbn; [reflexivity|].
  rewrite IH, fmap_app. reflexivity.
Qed.

Lemma entries_tmap (f : Z -> Z) (t : Tensor) :
  entries (tmap f t) = f <$> entries t.
Proof.
  unfold entries, tmap.
  rewrite (concat_fmap_fmap (fun px : list Z => f <$> px) t).
  apply (concat_fmap_fmap f).
Qed.

Lemma pixel_tmap (f : Z -> Z) (t : Tensor) (y x c : nat) :
  pixel (tmap f t) y x c = f <$> pixel t y x c.
Proof.
  unfold pixel, tmap. rewrite list_lookup_fmap.
  destruct (t !! y) as [row|]; cbn; [|reflexivity].
  rewrite list_lookup_fmap. destruct (row !! x) as [px|]; cbn; [|reflexivity].
  apply list_lookup_fmap.
Qed.

Lemma elem_of_concat {A : Type} (ls : list (list A)) (l : list A) (a : A) :
  l ∈ ls -> a ∈ l -> a ∈ concat ls.
Proof.
  intros Hl Ha. induction Hl as [l ls|l l' ls _ IH]; cbn;
    apply elem_of_app; [left | right]; auto.
Qed.

Lemma pixel_entries (t : Tensor) (y x c : nat) (v : Z) :
  pixel t y x c = Some v -> v ∈ entries t.
Proof.
  unfold pixel, entries. intros H.
  destruct (t !! y) as [row|] eqn:Hy; cbn in H; [|done].
  destruct (row !! x) as [px|] eqn:Hx; cbn in H; [|done].
  apply elem_of_concat with px; [|eapply list_elem_of_lookup_2; eauto].
  apply elem_of_concat with row; eapply list_elem_of_lookup_2; eauto.
Qed.

(** Dividing an entry by the guarded maximum leaves 1 at the maximum and 0
    below it. *)
Lemma floor_div_by_max (v m : Z) :
  0 <= v <= m ->
  py_floor_div v (Z.max 1 m) = if decide (0 < v /\ v = m) then 1 else 0.
Proof.
  intros Hv. unfold py_floor_div. destruct (decide (0 < v /\ v = m)) as [[Hp ->]|Hn].
  - rewrite Z.max_r by lia. apply Z.div_same. lia.
  - destruct (decide (v = 0)) as [->|Hv0]; [apply Z.div_0_l; lia|].
    apply Z.div_small. lia.
Qed.

Lemma foldr_add_indicator (P : Z -> Prop) `{!forall v, Decision (P v)}
    (vs : list Z) :
  foldr Z.add 0 ((fun v => if decide (P v) then 1 else 0) <$> vs)
  = Z.of_nat (length (filter P vs)).
Proof.
  induction vs as [|v vs IH]; [reflexivity|].
  rewrite filter_cons, fmap_cons. cbn [foldr]. rewrite IH.
  destruct (decide (P v)); cbn [length]; lia.
Qed.

Lemma binarize_ret (mask : Tensor) (m : Z) :
  np_max mask = Ret m ->
  binarize mask = Ret (tmap (fun v => py_floor_div v (Z.max 1 m)) mask).
Proof. intros E. unfold binarize, divisor. rewrite E. reflexivity. Qed.

Lemma binarize_raises (mask : Tensor) :
  entries mask = [] -> binarize mask = Raise ValueError.
Proof.
  intros E. unfold binarize, divisor. rewrite (np_max_raises _ E). reflexivity.
Qed.

Lemma binarize_returns_iff (mask : Tensor) :
  (exists md, binarize mask = Ret md) <-> entries mask <> [].
Proof.
  split.
  - intros [md E] Hnil. rewrite (binarize_raises _ Hnil) in E. discriminate.
  - intros Hne. destruct (np_max_ret _ Hne) as (m & E & _).
    eexists. apply binarize_ret, E.
Qed.

End numpy_facts.

Section binarize_facts.
Import Numpy.

Lemma filter_ext_Forall (P Q : Z -> Prop)
    `{!forall v, Decision (P v), !forall v, Decision (Q v)} (vs : list Z) :
  Forall (fun v => P v <-> Q v) vs -> filter P vs = filter Q vs.
Proof.
  induction 1 as [|v vs Hv _ IH]; [reflexivity|].
  rewrite !filter_cons, IH.
  destruct (decide (P v)), (decide (Q v)); tauto.
Qed.

(** What binarizing does to every entry and to the sum, given the maximum. *)
Lemma binarize_by_maximum (mask : Tensor) (m : Z) :
  Forall (fun v => 0 <= v) (entries mask) ->
  np_max mask = Ret m ->
  exists md,
    binarize mask = Ret md /\
    (forall y x c, pixel md y x c =
       (fun v => if decide (0 < v /\ v = m) then 1 else 0) <$> pixel mask y x c) /\
    entries md =
      (fun v => if decide (0 < v /\ v = m) then 1 else 0) <$> entries mask.
Proof.
  intros Hpos Hmax.
  assert (Forall (fun v => v <= m) (entries mask)) as Hle.
  { destruct (np_max_ret mask) as (m' & E & _ & Hle).
    - intros Hnil. rewrite (np_max_raises _ Hnil) in Hmax. discriminate.
    - rewrite Hmax in E. injection E as <-. exact Hle. }
  assert (Forall (fun v => py_floor_div v (Z.max 1 m)
                           = if decide (0 < v /\ v = m) then 1 else 0)
                 (entries mask)) as Hdiv.
  { rewrite Forall_forall in Hpos, Hle. apply Forall_forall. intros v Hv.
    apply floor_div_by_max. split; auto. }
  eexists. split; [apply binarize_ret, Hmax|]. split.
  - intros y x c. rewrite pixel_tmap.
    destruct (pixel mask y x c) as [v|] eqn:Hpx; [|reflexivity]. cbn. f_equal.
    rewrite Forall_forall in Hdiv. apply Hdiv. eapply pixel_entries, Hpx.
  - rewrite entries_tmap. apply Forall_fmap_ext_1, Hdiv.
Qed.

Lemma uint8_nonneg (t : Tensor) :
  uint8 t -> Forall (fun v => 0 <= v) (entries t).
Proof.
  unfold uint8. intros H. eapply Forall_impl; [exact H|].
  cbn. intros v Hv. lia.
Qed.

End binarize_facts.

(** C3, as the code has it. Binarizing a non-empty mask of 8-bit entries
    divides every entry by the mask's maximum (by 1 when the maximum is 0):
    a zero entry becomes 0, a positive entry becomes 1 when it equals the
    maximum and 0 when it is smaller, and the score is the number of
    entries equal to the positive maximum. When all positive entries of the
    mask are equal, every positive entry becomes 1 and the score is the
    number of positive entries. *)
Theorem binarize_keeps_maximum (mask : Tensor) :
  Numpy.uint8 mask -> Numpy.entries mask <> [] ->
  exists (m : Z) (md : Tensor),
    Numpy.np_max mask = Ret m /\
    Numpy.binarize mask = Ret md /\
    (forall y x c, Numpy.pixel md y x c =
       (fun v => if decide (0 < v /\ v = m) then 1 else 0)
         <$> Numpy.pixel mask y x c) /\
    Numpy.np_sum md =
      Z.of_nat (length (filter (fun v => 0 < v /\ v = m) (Numpy.entries mask))) /\
    (Forall (fun v => v = 0 \/ v = m) (Numpy.entries mask) ->
     (forall y x c, Numpy.pixel md y x c =
        (fun v => if decide (0 < v) then 1 else 0) <$> Numpy.pixel mask y x c) /\
     Numpy.np_sum md =
       Z.of_nat (length (filter (fun v => 0 < v) (Numpy.entries mask)))).
Proof.
  intros Hu Hne.
  destruct (np_max_ret mask Hne) as (m & Hmax & Hin & Hle).
  destruct (binarize_by_maximum mask m (uint8_nonneg _ Hu) Hmax)
    as (md & Hmd & Hpx & Hent).
  exists m, md. split; [exact Hmax|]. split; [exact Hmd|].
  split; [exact Hpx|]. split.
  - unfold Numpy.np_sum. rewrite Hent.
    apply (foldr_add_indicator (fun v => 0 < v /\ v = m)).
  - intros Htwo. split.
    + intros y x c. rewrite Hpx.
      destruct (Numpy.pixel mask y x c) as [v|] eqn:E; [|reflexivity]. cbn.
      apply pixel_entries in E. rewrite Forall_forall in Htwo.
      destruct (Htwo v E); repeat case_decide; try reflexivity; lia.
    + unfold Numpy.np_sum. rewrite Hent.
      rewrite (foldr_add_indicator (fun v => 0 < v /\ v = m)).
      do 2 f_equal. apply filter_ext_Forall.
      eapply Forall_impl; [exact Htwo|]. cbn. intros v Hv. lia.
Qed.

Section np_mul_facts.
Import Numpy.

Lemma py_mapM_zip_ret {A B C : Type} (f : A -> B -> py C) (g : A -> B -> C)
    (xs : list A) (ys : list B) :
  Forall2 (fun x y => f x y = Ret (g x y)) xs ys ->
  py_mapM (fun p => f p.1 p.2) (zip xs ys) = Ret (zip_with g xs ys).
Proof.
  induction 1 as [|x y xs ys Hxy _ IH]; [reflexivity|].
  change (zip (x :: xs) (y :: ys)) with ((x, y) :: zip xs ys).
  cbn [py_mapM fst snd]. rewrite Hxy. cbn [py_bind]. rewrite IH.
  reflexivity.
Qed.

Lemma broadcast_same_length {A B C : Type} (f : A -> B -> py C)
    (g : A -> B -> C) (xs : list A) (ys : list B) :
  Forall2 (fun x y => f x y = Ret (g x y)) xs ys ->
  broadcast f xs ys = Ret (zip_with g xs ys).
Proof.
  intros H. unfold broadcast.
  rewrite decide_True by (eapply Forall2_length, H).
  apply py_mapM_zip_ret, H.
Qed.

(** On two arrays of one shape the product is taken entry by entry. *)
Lemma np_mul_same_shape (a b : Tensor) :
  same_shape a b ->
  np_mul a b = Ret (zip_with (zip_with (zip_with mul_uint8)) a b).
Proof.
  intros Hs. unfold np_mul. apply broadcast_same_length.
  eapply Forall2_impl; [exact Hs|]. cbn. intros ra rb Hr.
  apply broadcast_same_length.
  eapply Forall2_impl; [exact Hr|]. cbn. intros p q Hpq.
  apply broadcast_same_length. apply Forall2_true; auto.
Qed.

Lemma pixel_zip_with (g : Z -> Z -> Z) (a b : Tensor) (y x c : nat) (u v : Z) :
  pixel a y x c = Some u -> pixel b y x c = Some v ->
  pixel (zip_with (zip_with (zip_with g)) a b) y x c = Some (g u v).
Proof.
  unfold pixel. intros Ha Hb. rewrite lookup_zip_with.
  destruct (a !! y) as [ra|]; cbn in *; [|done].
  destruct (b !! y) as [rb|]; cbn in *; [|done].
  rewrite lookup_zip_with.
  destruct (ra !! x) as [p|]; cbn in *; [|done].
  destruct (rb !! x) as [q|]; cbn in *; [|done].
  rewrite lookup_zip_with, Ha, Hb. reflexivity.
Qed.

Lemma same_shape_pixel (a b : Tensor) (y x c : nat) (v : Z) :
  same_shape a b -> pixel b y x c = Some v -> is_Some (pixel a y x c).
Proof.
  unfold same_shape, pixel. intros Hs Hb.
  destruct (b !! y) as [rb|] eqn:Ey; cbn in Hb; [|done].
  destruct (Forall2_lookup_r _ _ _ _ _ Hs Ey) as (ra & -> & Hr). cbn.
  destruct (rb !! x) as [q|] eqn:Ex; cbn in Hb; [|done].
  destruct (Forall2_lookup_r _ _ _ _ _ Hr Ex) as (p & -> & Hpq). cbn.
  apply lookup_lt_is_Some. rewrite Hpq. eapply lookup_lt_Some, Hb.
Qed.

Lemma same_shape_tmap (f : Z -> Z) (a b : Tensor) :
  same_shape a b -> same_shape (tmap f a) b.
Proof.
  unfold same_shape, tmap. intros Hs.
  apply Forall2_fmap_l. eapply Forall2_impl; [exact Hs|]. cbn.
  intros ra rb Hr. apply Forall2_fmap_l.
  eapply Forall2_impl; [exact Hr|]. cbn. intros p q Hpq.
  rewrite length_fmap. exact Hpq.
Qed.

End np_mul_facts.

(** C7. The crop built for a directory and its chosen file, from an image
    and a non-empty mask of the image's shape: at every pixel position and
    channel of the image, where the binarized mask holds 0 the crop holds 0,
    and where it holds 1 the crop holds the image's value. *)
Theorem masked_crop_pixels (env : Env) (dir file : string)
    (image mask : Tensor) :
  open_rgb env file = Some image ->
  open_mask env dir (file +:+ ".png") = Some mask ->
  Numpy.uint8 image -> Numpy.entries mask <> [] ->
  Numpy.same_shape mask image ->
  exists md crop : Tensor,
    Numpy.binarize mask = Ret md /\
    ExtractFeatures.masked_crop env dir file = Ret crop /\
    forall (y x c : nat) (p : Z),
      Numpy.pixel image y x c = Some p ->
      exists b : Z,
        Numpy.pixel md y x c = Some b /\
        (b = 0 -> Numpy.pixel crop y x c = Some 0) /\
        (b = 1 -> Numpy.pixel crop y x c = Some p).
Proof.
  intros Hrgb Hmask Hu Hne Hs.
  destruct (np_max_ret mask Hne) as (m & Hmax & _).
  pose proof (binarize_ret mask m Hmax) as Hmd.
  set (md := Numpy.tmap (fun v => py_floor_div v (Z.max 1 m)) mask) in *.
  assert (Numpy.same_shape md image) as Hs' by (apply same_shape_tmap, Hs).
  exists md, (zip_with (zip_with (zip_with Numpy.mul_uint8)) md image).
  split; [exact Hmd|]. split.
  - unfold ExtractFeatures.masked_crop. rewrite Hrgb, Hmask. cbn.
    rewrite Hmd. cbn. apply np_mul_same_shape, Hs'.
  - intros y x c p Hp.
    destruct (same_shape_pixel md image y x c p Hs' Hp) as [b Hb].
    exists b. split; [exact Hb|].
    rewrite (pixel_zip_with _ _ _ _ _ _ _ _ Hb Hp). unfold Numpy.mul_uint8.
    assert (0 <= p < 256) as Hp8.
    { unfold Numpy.uint8 in Hu. rewrite Forall_forall in Hu.
      apply Hu. eapply pixel_entries, Hp. }
    split; intros ->.
    + reflexivity.
    + rewrite Z.mul_1_l, Z.mod_small by lia. reflexivity.
Qed.

(** ** Dictionaries *)

Section dict_facts.
Context {V : Type}.
Implicit Types (d : list (string * V)) (k : string) (v : V).

Lemma getitem_setitem_eq d k v : Dict.getitem (Dict.setitem d k v) k = Some v.
Proof.
  induction d as [|[k' v'] d IH]; cbn.
  - rewrite decide_True; reflexivity.
  - destruct (decide (k = k')) as [->|Hne]; cbn.
    + rewrite decide_True; reflexivity.
    + rewrite decide_False by exact Hne. exact IH.
Qed.

Lemma getitem_setitem_ne d k k' v :
  k <> k' -> Dict.getitem (Dict.setitem d k v) k' = Dict.getitem d k'.
Proof.
  intros Hne. induction d as [|[k0 v0] d IH]; cbn.
  - rewrite decide_False by congruence. reflexivity.
  - destruct (decide (k = k0)) as [->|Hk]; cbn.
    + rewrite !decide_False by congruence. reflexivity.
    + destruct (decide (k' = k0)); [reflexivity | exact IH].
Qed.

Lemma getitem_None d k : Dict.getitem d k = None <-> k ∉ Dict.keys d.
Proof.
  unfold Dict.keys. induction d as [|[k' v'] d IH]; cbn.
  - split; [intros _; apply not_elem_of_nil | reflexivity].
  - rewrite not_elem_of_cons. destruct (decide (k = k')) as [->|Hne].
    + split; [discriminate | intros [? _]; congruence].
    + rewrite IH. tauto.
Qed.

Lemma getitem_is_Some d k : is_Some (Dict.getitem d k) <-> k ∈ Dict.keys d.
Proof.
  rewrite <- not_eq_None_Some, getitem_None.
  destruct (decide (k ∈ Dict.keys d)); tauto.
Qed.

Lemma keys_setitem_present d k v :
  k ∈ Dict.keys d -> Dict.keys (Dict.setitem d k v) = Dict.keys d.
Proof.
  unfold Dict.keys. induction d as [|[k' v'] d IH]; cbn.
  - intros H. apply elem_of_nil in H. contradiction.
  - intros H. destruct (decide (k = k')) as [->|Hne]; cbn; [reflexivity|].
    apply elem_of_cons in H as [H|H]; [contradiction|].
    rewrite (IH H). reflexivity.
Qed.

Lemma keys_setitem_absent d k v :
  k ∉ Dict.keys d -> Dict.keys (Dict.setitem d k v) = Dict.keys d ++ [k].
Proof.
  unfold Dict.keys. induction d as [|[k' v'] d IH]; cbn; [reflexivity|].
  rewrite not_elem_of_cons. intros [Hne H].
  rewrite decide_False by exact Hne. cbn. rewrite (IH H). reflexivity.
Qed.

Lemma length_keys d : length (Dict.keys d) = length d.
Proof. unfold Dict.keys. apply length_fmap. Qed.

End dict_facts.

(** ** The visibility records *)

Section update_facts.
Import ExtractFeatures.
Implicit Types (mv : Visible) (dir file : string) (score : Z).

Lemma getitem_update_eq mv dir score file :
  Dict.getitem (update mv dir score file) dir
  = Some (keep_best (Dict.getitem mv dir) (score, file)).
Proof.
  unfold update, keep_best.
  destruct (Dict.getitem mv dir) as [[best f]|] eqn:E; cbn.
  - destruct (score >? best); [apply getitem_setitem_eq | exact E].
  - apply getitem_setitem_eq.
Qed.

Lemma getitem_update_ne mv dir dir' score file :
  dir <> dir' ->
  Dict.getitem (update mv dir score file) dir' = Dict.getitem mv dir'.
Proof.
  intros Hne. unfold update.
  destruct (Dict.getitem mv dir) as [[best f]|].
  - destruct (score >? best); [apply getitem_setitem_ne, Hne | reflexivity].
  - apply getitem_setitem_ne, Hne.
Qed.

Lemma keys_update_present mv dir score file :
  dir ∈ Dict.keys mv -> Dict.keys (update mv dir score file) = Dict.keys mv.
Proof.
  intros Hin. unfold update.
  destruct (Dict.getitem mv dir) as [[best f]|] eqn:E.
  - destruct (score >? best); [apply keys_setitem_present, Hin | reflexivity].
  - apply getitem_None in E. contradiction.
Qed.

Lemma keys_update_absent mv dir score file :
  dir ∉ Dict.keys mv ->
  Dict.keys (update mv dir score file) = Dict.keys mv ++ [dir].
Proof.
  intros Hout. unfold update.
  rewrite (proj2 (getitem_None mv dir) Hout).
  apply keys_setitem_absent, Hout.
Qed.

(** A record is replaced by a greater score only. *)
Lemma update_not_greater mv dir best f score file :
  Dict.getitem mv dir = Some (best, f) -> score <= best ->
  update mv dir score file = mv.
Proof.
  intros E Hle. unfold update. rewrite E.
  destruct (score >? best) eqn:G; [|reflexivity].
  apply Z.gtb_gt in G. lia.
Qed.

Lemma update_greater mv dir best f score file :
  Dict.getitem mv dir = Some (best, f) -> best < score ->
  Dict.getitem (update mv dir score file) dir = Some (score, file).
Proof.
  intros E Hlt. rewrite getitem_update_eq, E. cbn.
  destruct (score >? best) eqn:G; [reflexivity|].
  rewrite Z.gtb_ltb in G. apply Z.ltb_ge in G. lia.
Qed.

(** The record of [dir] after a run of observations of [dir]. *)
Lemma getitem_fold_update mv dir (obs : list (Z * string)) :
  Dict.getitem (fold_left (fun mv o => update mv dir o.1 o.2) obs mv) dir
  = fold_left (fun r o => Some (keep_best r o)) obs (Dict.getitem mv dir).
Proof.
  revert mv. induction obs as [|[s f] obs IH]; intros mv; cbn; [reflexivity|].
  rewrite IH, getitem_update_eq. reflexivity.
Qed.

(** Folding [keep_best] from a record keeps it unless a greater score comes,
    and then keeps the first observation with the greatest score. *)
Lemma keep_best_first_maximum (obs : list (Z * string)) (cur : Z * string) :
  exists r : Z * string,
    fold_left (fun r o => Some (keep_best r o)) obs (Some cur) = Some r /\
    ((r = cur /\ forall j o, obs !! j = Some o -> o.1 <= cur.1) \/
     exists i : nat,
       obs !! i = Some r /\ cur.1 < r.1 /\
       (forall j o, obs !! j = Some o -> o.1 <= r.1) /\
       (forall j o, (j < i)%nat -> obs !! j = Some o -> o.1 < r.1)).
Proof.
  revert cur. induction obs as [|o obs IH]; intros [best f].
  - exists (best, f). split; [reflexivity|]. left. split; [reflexivity|].
    intros j o Hj. rewrite lookup_nil in Hj. discriminate.
  - cbn [fold_left keep_best]. destruct (o.1 >? best) eqn:G.
    + apply Z.gtb_gt in G. destruct (IH o) as (r & Hr & Hcase).
      exists r. split; [exact Hr|]. right.
      destruct Hcase as [[-> Hall]|(i & Hi & Hlt & Hall & Hbefore)].
      * exists 0%nat. split; [reflexivity|]. split; [cbn; lia|]. split.
        -- intros [|j] o' Hj; cbn in Hj; [injection Hj as <-; lia|].
           eapply Hall, Hj.
        -- intros j o' Hj. lia.
      * exists (S i). split; [exact Hi|]. split; [cbn; lia|]. split.
        -- intros [|j] o' Hj; cbn in Hj; [injection Hj as <-; lia|].
           eapply Hall, Hj.
        -- intros [|j] o' Hlt' Hj; cbn in Hj; [injection Hj as <-; lia|].
           eapply Hbefore; [|exact Hj]. lia.
    + rewrite Z.gtb_ltb in G. apply Z.ltb_ge in G.
      destruct (IH (best, f)) as (r & Hr & Hcase).
      exists r. split; [exact Hr|].
      destruct Hcase as [[-> Hall]|(i & Hi & Hlt & Hall & Hbefore)].
      * left. split; [reflexivity|].
        intros [|j] o' Hj; cbn in Hj; [injection Hj as <-; cbn; lia|].
        eapply Hall, Hj.
      * right. exists (S i). split; [exact Hi|]. cbn in Hlt.
        split; [cbn; lia|]. split.
        -- intros [|j] o' Hj; cbn in Hj; [injection Hj as <-; lia|].
           eapply Hall, Hj.
        -- intros [|j] o' Hlt' Hj; cbn in Hj; [injection Hj as <-; lia|].
           eapply Hbefore; [|exact Hj]. lia.
Qed.

End update_facts.

(** C2. For a directory not yet recorded and a run of observations
    (score, frame) made in scan order, the record kept at the end is an
    observation of the run whose score is the greatest of the run and which
    comes before every other observation with that score; a stored record
    is replaced when the new score is greater and left alone when it is
    not. Scores 120, 200, 150 keep the second frame; scores 200, 200, 150
    keep the first. *)
Theorem tracker_keeps_first_maximum (dir : string)
    (mv : list (string * (Z * string))) (o : Z * string)
    (obs : list (Z * string)) :
  Dict.getitem mv dir = None ->
  (exists (i : nat) (s : Z) (f : string),
     (o :: obs) !! i = Some (s, f) /\
     Dict.getitem
       (fold_left (fun mv o => ExtractFeatures.update mv dir o.1 o.2)
                  (o :: obs) mv) dir = Some (s, f) /\
     (forall j s' f', (o :: obs) !! j = Some (s', f') -> s' <= s) /\
     (forall j s' f',
        (j < i)%nat -> (o :: obs) !! j = Some (s', f') -> s' < s)) /\
  (forall mv' best f0 s f,
     Dict.getitem mv' dir = Some (best, f0) ->
     (best < s ->
      Dict.getitem (ExtractFeatures.update mv' dir s f) dir = Some (s, f)) /\
     (s <= best -> ExtractFeatures.update mv' dir s f = mv')) /\
  Dict.getitem
    (fold_left (fun mv o => ExtractFeatures.update mv "chair" o.1 o.2)
               [(120, "frame1"); (200, "frame2"); (150, "frame3")] [])
    "chair" = Some (200, "frame2") /\
  Dict.getitem
    (fold_left (fun mv o => ExtractFeatures.update mv "chair" o.1 o.2)
               [(200, "frame1"); (200, "frame2"); (150, "frame3")] [])
    "chair" = Some (200, "frame1").
Proof.
  intros Hnew. split; [|split; [|split; reflexivity]].
  - rewrite getitem_fold_update. cbn [fold_left]. rewrite Hnew.
    cbn [keep_best].
    destruct (keep_best_first_maximum obs o) as (r & Hr & Hcase).
    rewrite Hr.
    destruct Hcase as [[-> Hall]|(i & Hi & Hlt & Hall & Hbefore)].
    + exists 0%nat, o.1, o.2. split; [destruct o; reflexivity|].
      split; [destruct o; reflexivity|]. split.
      * intros [|j] s' f' Hj; cbn in Hj; [injection Hj as ->; cbn in *; lia|].
        apply (Hall j (s', f') Hj).
      * intros j s' f' Hj. lia.
    + exists (S i), r.1, r.2. split; [destruct r; exact Hi|].
      split; [destruct r; reflexivity|]. split.
      * intros [|j] s' f' Hj; cbn in Hj; [injection Hj as ->; cbn in *; lia|].
        apply (Hall j (s', f') Hj).
      * intros [|j] s' f' Hlt' Hj; cbn in Hj; [injection Hj as ->; cbn in *; lia|].
        apply (Hbefore j (s', f')); [lia | exact Hj].
  - intros mv' best f0 s f E. split; intros Hs.
    + eapply update_greater; eauto.
    + eapply update_not_greater; eauto.
Qed.

Lemma tracker_keeps_first_maximum_witness :
  exists (i : nat) (s : Z) (f : string),
    [(120, "frame1"); (200, "frame2"); (150, "frame3")] !! i = Some (s, f) /\
    Dict.getitem
      (fold_left (fun mv o => ExtractFeatures.update mv "chair" o.1 o.2)
                 [(120, "frame1"); (200, "frame2"); (150, "frame3")]
                 [("table", (7, "frame0"))])
      "chair" = Some (s, f).
Proof.
  destruct (tracker_keeps_first_maximum "chair" [("table", (7, "frame0"))]
              (120, "frame1") [(200, "frame2"); (150, "frame3")] eq_refl)
    as ((i & s & f & Hi & Hget & _) & _).
  exists i, s, f. split; assumption.
Defined.

Section zero_mask_facts.
Import Numpy.

Lemma foldr_add_zeros (vs : list Z) :
  Forall (fun v => v = 0) vs -> foldr Z.add 0 vs = 0.
Proof. induction 1 as [|v vs -> _ IH]; cbn; [reflexivity | exact IH]. Qed.

Lemma zero_mask_binarize (mask : Tensor) :
  entries mask <> [] -> Forall (fun v => v = 0) (entries mask) ->
  divisor mask = Ret 1 /\
  exists md, binarize mask = Ret md /\
             Forall (fun v => v = 0) (entries md) /\ np_sum md = 0.
Proof.
  intros Hne Hz. destruct (np_max_ret mask Hne) as (m & Hmax & Hin & _).
  assert (m = 0) as -> by (rewrite Forall_forall in Hz; apply Hz, Hin).
  assert (divisor mask = Ret 1) as Hd by (unfold divisor; rewrite Hmax; reflexivity).
  split; [exact Hd|]. eexists. split; [apply binarize_ret, Hmax|].
  assert (Forall (fun v => v = 0)
            (entries (tmap (fun v => py_floor_div v (Z.max 1 0)) mask))) as Hz'.
  { rewrite entries_tmap. apply Forall_fmap.
    eapply Forall_impl; [exact Hz|]. cbn. intros v ->. reflexivity. }
  split; [exact Hz'|]. apply foldr_add_zeros, Hz'.
Qed.

End zero_mask_facts.

(** C5. A mask whose entries are all zero is divided by 1, not by its
    maximum 0, and scores 0; visiting it for a directory that already holds
    a positive score leaves the records as they were. *)
Theorem zero_mask_keeps_record (env : Env) (frame : ExtractFeatures.Frame)
    (dir : string) (mask : Tensor) (mv : list (string * (Z * string)))
    (best : Z) (f : string) :
  open_mask env dir (ExtractFeatures.file frame +:+ ".png") = Some mask ->
  Numpy.entries mask <> [] ->
  Forall (fun v => v = 0) (Numpy.entries mask) ->
  Dict.getitem mv dir = Some (best, f) -> 0 < best ->
  Numpy.divisor mask = Ret 1 /\
  (exists md, Numpy.binarize mask = Ret md /\ Numpy.np_sum md = 0) /\
  ExtractFeatures.visibility_score env frame dir = Ret 0 /\
  ExtractFeatures.update mv dir 0 (ExtractFeatures.file frame) = mv /\
  ExtractFeatures.scan_mask env frame mv dir = Ret mv.
Proof.
  intros Hopen Hne Hz Hget Hpos.
  destruct (zero_mask_binarize mask Hne Hz) as (Hd & md & Hmd & _ & Hsum).
  assert (ExtractFeatures.visibility_score env frame dir = Ret 0) as Hscore.
  { unfold ExtractFeatures.visibility_score. destruct (ExtractFeatures.shape frame).
    rewrite Hopen. cbn. rewrite Hmd. cbn. rewrite Hsum. reflexivity. }
  assert (ExtractFeatures.update mv dir 0 (ExtractFeatures.file frame) = mv) as Hup.
  { eapply update_not_greater; [exact Hget | lia]. }
  split; [exact Hd|]. split; [exists md; auto|]. split; [exact Hscore|].
  split; [exact Hup|].
  unfold ExtractFeatures.scan_mask. rewrite Hscore. cbn. rewrite Hup. reflexivity.
Qed.

(** ** Loops *)

Lemma py_for_fmap {A B S : Type} (body : S -> B -> py S) (g : A -> B)
    (xs : list A) (s : S) :
  py_for body (g <$> xs) s = py_for (fun s x => body s (g x)) xs s.
Proof.
  revert s. induction xs as [|x xs IH]; intros s; cbn; [reflexivity|].
  destruct (body s (g x)); cbn; [apply IH | reflexivity].
Qed.

Lemma py_for_ext {A S : Type} (body1 body2 : S -> A -> py S)
    (xs : list A) (s : S) :
  (forall s x, body1 s x = body2 s x) ->
  py_for body1 xs s = py_for body2 xs s.
Proof.
  intros Hext. revert s. induction xs as [|x xs IH]; intros s; cbn; [reflexivity|].
  rewrite Hext. destruct (body2 s x); cbn; [apply IH | reflexivity].
Qed.

Lemma py_for_ext_in {A S : Type} (body1 body2 : S -> A -> py S)
    (xs : list A) (s : S) :
  (forall s x, x ∈ xs -> body1 s x = body2 s x) ->
  py_for body1 xs s = py_for body2 xs s.
Proof.
  revert s. induction xs as [|x xs IH]; intros s Hext; cbn; [reflexivity|].
  rewrite Hext by left. destruct (body2 s x); cbn; [|reflexivity].
  apply IH. intros s' x' Hin. apply Hext. right. exact Hin.
Qed.

(** ** The scan *)

Section scan_facts.
Import ExtractFeatures.
Context (env : Env).
Implicit Types (mv : Visible) (dir : string) (frame : Frame).

(** A frame with both sides of at least 6 pixels is padded and scanned; a
    smaller one is refused by the reflection padding. *)
Lemma scan_frame_cases (dirs : list string) mv frame :
  scan_frame env dirs mv frame =
  if decide (6 <= (shape frame).1 /\ 6 <= (shape frame).2)
  then py_for (scan_mask env frame) dirs mv
  else Raise RuntimeError.
Proof.
  unfold scan_frame. destruct (shape frame) as [H W]. cbn [fst snd].
  destruct (reflection_pad_fits_iff H W) as (g & -> & Hfits). cbn [py_bind].
  destruct (reflection_pad_fits H W (GridAligner.crop g)) eqn:E.
  - rewrite decide_True by (apply Hfits; reflexivity). reflexivity.
  - rewrite decide_False; [reflexivity|].
    intros Hs. apply Hfits in Hs. discriminate.
Qed.

Lemma scan_frame_fits (dirs : list string) mv frame :
  6 <= (shape frame).1 /\ 6 <= (shape frame).2 ->
  scan_frame env dirs mv frame = py_for (scan_mask env frame) dirs mv.
Proof. intros Hs. rewrite scan_frame_cases, decide_True by exact Hs. reflexivity. Qed.

Lemma scan_frame_inv (dirs : list string) mv mv' frame :
  scan_frame env dirs mv frame = Ret mv' ->
  (6 <= (shape frame).1 /\ 6 <= (shape frame).2) /\
  py_for (scan_mask env frame) dirs mv = Ret mv'.
Proof.
  rewrite scan_frame_cases. case_decide; [auto | discriminate].
Qed.

Lemma best_after_one dir frame (r : option (Z * string)) (score : Z) :
  visibility_score env frame dir = Ret score ->
  best_after env dir [frame] r = Some (keep_best r (score, file frame)).
Proof. intros E. unfold best_after. cbn. rewrite E. reflexivity. Qed.

Lemma best_after_cons dir frame (frames : list Frame)
    (r : option (Z * string)) :
  best_after env dir (frame :: frames) r
  = best_after env dir frames (best_after env dir [frame] r).
Proof. reflexivity. Qed.

(** One frame: the directories are visited in turn. *)

Lemma pass_returns frame (ds : list string) mv :
  (forall dir, dir ∈ ds -> exists s, visibility_score env frame dir = Ret s) ->
  exists mv', py_for (scan_mask env frame) ds mv = Ret mv'.
Proof.
  revert mv. induction ds as [|d ds IH]; intros mv Hs; cbn.
  - eexists. reflexivity.
  - destruct (Hs d) as [s Hd]; [left|]. unfold scan_mask at 1.
    rewrite Hd. cbn. apply IH. intros dir Hin. apply Hs. right. exact Hin.
Qed.

Lemma pass_scores frame (ds : list string) mv mv' :
  py_for (scan_mask env frame) ds mv = Ret mv' ->
  forall dir, dir ∈ ds -> exists s, visibility_score env frame dir = Ret s.
Proof.
  revert mv. induction ds as [|d ds IH]; intros mv Hret dir Hin.
  - apply elem_of_nil in Hin. contradiction.
  - cbn in Hret. unfold scan_mask at 1 in Hret.
    destruct (visibility_score env frame d) as [s|e] eqn:Hd; cbn in Hret;
      [|discriminate].
    apply elem_of_cons in Hin as [->|Hin]; [eauto|].
    eapply IH; eauto.
Qed.

Lemma pass_getitem_out frame (ds : list string) mv mv' dir :
  py_for (scan_mask env frame) ds mv = Ret mv' ->
  dir ∉ ds -> Dict.getitem mv' dir = Dict.getitem mv dir.
Proof.
  revert mv. induction ds as [|d ds IH]; intros mv Hret Hout; cbn in Hret.
  - injection Hret as <-. reflexivity.
  - apply not_elem_of_cons in Hout as [Hne Hout].
    unfold scan_mask at 1 in Hret.
    destruct (visibility_score env frame d) as [s|e]; cbn in Hret; [|discriminate].
    rewrite (IH _ Hret Hout). apply getitem_update_ne. congruence.
Qed.

Lemma pass_getitem_in frame (ds : list string) mv mv' dir :
  py_for (scan_mask env frame) ds mv = Ret mv' ->
  NoDup ds -> dir ∈ ds ->
  Dict.getitem mv' dir = best_after env dir [frame] (Dict.getitem mv dir).
Proof.
  revert mv. induction ds as [|d ds IH]; intros mv Hret Hnd Hin.
  - apply elem_of_nil in Hin. contradiction.
  - apply NoDup_cons in Hnd as [Hd Hnd]. cbn in Hret.
    unfold scan_mask at 1 in Hret.
    destruct (visibility_score env frame d) as [s|e] eqn:Hs; cbn in Hret;
      [|discriminate].
    destruct (decide (dir = d)) as [->|Hne].
    + rewrite (pass_getitem_out _ _ _ _ _ Hret Hd), getitem_update_eq.
      symmetry. apply best_after_one, Hs.
    + apply elem_of_cons in Hin as [?|Hin]; [contradiction|].
      rewrite (IH _ Hret Hnd Hin). f_equal. apply getitem_update_ne. congruence.
Qed.

Lemma pass_keys_present frame (ds : list string) mv mv' :
  py_for (scan_mask env frame) ds mv = Ret mv' ->
  (forall dir, dir ∈ ds -> dir ∈ Dict.keys mv) ->
  Dict.keys mv' = Dict.keys mv.
Proof.
  revert mv. induction ds as [|d ds IH]; intros mv Hret Hin; cbn in Hret.
  - injection Hret as <-. reflexivity.
  - unfold scan_mask at 1 in Hret.
    destruct (visibility_score env frame d) as [s|e]; cbn in Hret; [|discriminate].
    assert (Dict.keys (update mv d s (file frame)) = Dict.keys mv) as Hk.
    { apply keys_update_present, Hin. left. }
    rewrite (IH _ Hret); [exact Hk|].
    intros dir Hdir. rewrite Hk. apply Hin. right. exact Hdir.
Qed.

Lemma pass_keys_fresh frame (ds : list string) mv mv' :
  py_for (scan_mask env frame) ds mv = Ret mv' ->
  NoDup ds -> (forall dir, dir ∈ ds -> dir ∉ Dict.keys mv) ->
  Dict.keys mv' = Dict.keys mv ++ ds.
Proof.
  revert mv. induction ds as [|d ds IH]; intros mv Hret Hnd Hout; cbn in Hret.
  - injection Hret as <-. rewrite app_nil_r. reflexivity.
  - apply NoDup_cons in Hnd as [Hd Hnd]. unfold scan_mask at 1 in Hret.
    destruct (visibility_score env frame d) as [s|e]; cbn in Hret; [|discriminate].
    assert (Dict.keys (update mv d s (file frame)) = Dict.keys mv ++ [d]) as Hk.
    { apply keys_update_absent, Hout. left. }
    rewrite (IH _ Hret Hnd).
    + rewrite Hk, <- app_assoc. reflexivity.
    + intros dir Hdir. rewrite Hk. intros Hin.
      apply elem_of_app in Hin as [Hin|Hin].
      * eapply Hout; [right|]; eauto.
      * apply list_elem_of_singleton in Hin as ->. contradiction.
Qed.

(** All frames. *)

Lemma scan_from_returns (frames : list Frame) (dirs : list string) mv :
  (forall frame, frame ∈ frames ->
     6 <= (shape frame).1 /\ 6 <= (shape frame).2) ->
  (forall frame dir, frame ∈ frames -> dir ∈ dirs ->
     exists s, visibility_score env frame dir = Ret s) ->
  exists mv', py_for (scan_frame env dirs) frames mv = Ret mv'.
Proof.
  revert mv. induction frames as [|fr frames IH]; intros mv Hfit Hs;
    cbn [py_for].
  - eexists. reflexivity.
  - rewrite scan_frame_fits by (apply Hfit; left).
    destruct (pass_returns fr dirs mv) as [mv1 ->].
    { intros dir Hdir. apply Hs; [left | exact Hdir]. }
    cbn [py_bind]. apply IH.
    + intros frame Hf. apply Hfit. right. exact Hf.
    + intros frame dir Hf Hd. apply Hs; [right|]; assumption.
Qed.

Lemma scan_from_fits (frames : list Frame) (dirs : list string) mv mv' :
  py_for (scan_frame env dirs) frames mv = Ret mv' ->
  forall frame, frame ∈ frames ->
    6 <= (shape frame).1 /\ 6 <= (shape frame).2.
Proof.
  revert mv. induction frames as [|fr frames IH]; intros mv Hret frame Hf.
  - apply elem_of_nil in Hf. contradiction.
  - cbn [py_for] in Hret.
    destruct (scan_frame env dirs mv fr) as [mv1|e] eqn:Hframe;
      cbn [py_bind] in Hret; [|discriminate].
    destruct (scan_frame_inv _ _ _ _ Hframe) as [Hfits Hpass].
    apply elem_of_cons in Hf as [->|Hf]; [exact Hfits|].
    eapply IH; eauto.
Qed.

Lemma scan_from_scores (frames : list Frame) (dirs : list string) mv mv' :
  py_for (scan_frame env dirs) frames mv = Ret mv' ->
  forall frame dir, frame ∈ frames -> dir ∈ dirs ->
    exists s, visibility_score env frame dir = Ret s.
Proof.
  revert mv. induction frames as [|fr frames IH]; intros mv Hret frame dir Hf Hd.
  - apply elem_of_nil in Hf. contradiction.
  - cbn [py_for] in Hret.
    destruct (scan_frame env dirs mv fr) as [mv1|e] eqn:Hframe;
      cbn [py_bind] in Hret; [|discriminate].
    destruct (scan_frame_inv _ _ _ _ Hframe) as [_ Hpass].
    apply elem_of_cons in Hf as [->|Hf].
    + eapply pass_scores; eauto.
    + eapply IH; eauto.
Qed.

Lemma scan_from_getitem (frames : list Frame) (dirs : list string) mv mv' dir :
  py_for (scan_frame env dirs) frames mv = Ret mv' ->
  NoDup dirs -> dir ∈ dirs ->
  Dict.getitem mv' dir = best_after env dir frames (Dict.getitem mv dir).
Proof.
  revert mv. induction frames as [|fr frames IH]; intros mv Hret Hnd Hd.
  - cbn in Hret. injection Hret as <-. reflexivity.
  - cbn [py_for] in Hret.
    destruct (scan_frame env dirs mv fr) as [mv1|e] eqn:Hframe;
      cbn [py_bind] in Hret; [|discriminate].
    destruct (scan_frame_inv _ _ _ _ Hframe) as [_ Hpass].
    rewrite (IH _ Hret Hnd Hd), best_after_cons.
    f_equal. eapply pass_getitem_in; eauto.
Qed.

Lemma scan_from_keys_present (frames : list Frame) (dirs : list string) mv mv' :
  py_for (scan_frame env dirs) frames mv = Ret mv' ->
  Dict.keys mv = dirs -> Dict.keys mv' = dirs.
Proof.
  revert mv. induction frames as [|fr frames IH]; intros mv Hret Hk.
  - cbn in Hret. injection Hret as <-. exact Hk.
  - cbn [py_for] in Hret.
    destruct (scan_frame env dirs mv fr) as [mv1|e] eqn:Hframe;
      cbn [py_bind] in Hret; [|discriminate].
    destruct (scan_frame_inv _ _ _ _ Hframe) as [_ Hpass].
    apply (IH _ Hret). rewrite <- Hk.
    eapply pass_keys_present; [exact Hpass|]. rewrite Hk. auto.
Qed.

Lemma scan_keys (frame : Frame) (frames : list Frame) (dirs : list string) mv :
  scan env (frame :: frames) dirs = Ret mv -> NoDup dirs ->
  Dict.keys mv = dirs.
Proof.
  unfold scan. cbn [py_for]. intros Hret Hnd.
  destruct (scan_frame env dirs [] frame) as [mv1|e] eqn:Hframe;
    cbn [py_bind] in Hret; [|discriminate].
  destruct (scan_frame_inv _ _ _ _ Hframe) as [_ Hpass].
  apply (scan_from_keys_present _ _ _ _ Hret).
  rewrite (pass_keys_fresh _ _ _ _ Hpass Hnd); [reflexivity|].
  intros dir _. apply not_elem_of_nil.
Qed.

End scan_facts.

(** ** The row index *)

Section index_facts.
Import ExtractFeatures.

Lemma sorted_Permutation (dirs : list string) : sorted dirs ≡ₚ dirs.
Proof. apply merge_sort_Permutation. Qed.

Lemma sorted_Sorted (dirs : list string) : Sorted String.le (sorted dirs).
Proof. apply (Sorted_merge_sort String.le). Qed.

Lemma sorted_NoDup (dirs : list string) : NoDup dirs -> NoDup (sorted dirs).
Proof. intros H. rewrite sorted_Permutation. exact H. Qed.

(** The sorted list depends on the names only, not on their order. *)
Lemma sorted_of_Permutation (dirs dirs' : list string) :
  dirs' ≡ₚ dirs -> sorted dirs' = sorted dirs.
Proof.
  intros Hp. apply (Sorted_unique String.le); try apply sorted_Sorted.
  rewrite !sorted_Permutation. exact Hp.
Qed.

(** Any sorted arrangement of the names is this one: the result does not
    depend on the sorting algorithm. *)
Lemma sorted_unique (dirs l : list string) :
  Sorted String.le l -> l ≡ₚ dirs -> l = sorted dirs.
Proof.
  intros Hs Hp. apply (Sorted_unique String.le); [exact Hs | apply sorted_Sorted |].
  rewrite sorted_Permutation. exact Hp.
Qed.

Lemma fold_setitem_other (l : list string) (n : nat)
    (d : list (string * nat)) (k : string) :
  k ∉ l ->
  Dict.getitem
    (fold_left (fun d p => Dict.setitem d p.2 p.1) (enumerate n l) d) k
  = Dict.getitem d k.
Proof.
  revert n d. induction l as [|x l IH]; intros n d Hout; cbn; [reflexivity|].
  apply not_elem_of_cons in Hout as [Hne Hout].
  rewrite (IH _ _ Hout). apply getitem_setitem_ne. congruence.
Qed.

Lemma fold_setitem_index (l : list string) (n j : nat)
    (d : list (string * nat)) (k : string) :
  NoDup l -> l !! j = Some k ->
  Dict.getitem
    (fold_left (fun d p => Dict.setitem d p.2 p.1) (enumerate n l) d) k
  = Some (n + j)%nat.
Proof.
  revert n j d. induction l as [|x l IH]; intros n j d Hnd Hj.
  - rewrite lookup_nil in Hj. discriminate.
  - apply NoDup_cons in Hnd as [Hx Hnd]. cbn [enumerate fold_left].
    destruct j as [|j]; cbn in Hj.
    + injection Hj as ->. rewrite (fold_setitem_other _ _ _ _ Hx).
      cbn. rewrite getitem_setitem_eq. f_equal. lia.
    + rewrite (IH _ _ _ Hnd Hj). f_equal. lia.
Qed.

Lemma dir_to_idx_lookup (dirs : list string) (i : nat) (dir : string) :
  NoDup dirs -> sorted dirs !! i = Some dir ->
  Dict.getitem (dir_to_idx dirs) dir = Some i.
Proof.
  intros Hnd Hi. unfold dir_to_idx.
  rewrite (fold_setitem_index _ 0 i _ _ (sorted_NoDup _ Hnd) Hi). reflexivity.
Qed.

Lemma sorted_index (dirs : list string) (dir : string) :
  dir ∈ dirs -> exists i : nat, sorted dirs !! i = Some dir.
Proof.
  intros Hin. apply list_elem_of_lookup_1.
  rewrite sorted_Permutation. exact Hin.
Qed.

End index_facts.

(** ** The embedding table *)

Section embed_facts.
Import ExtractFeatures.
Context (env : Env).
Implicit Types (mv : Visible) (dir : string) (tbl : list (Row env)).

Lemma embed_object_ret mv (d2i : list (string * nat)) tbl dir
    (s : Z) (f : string) (crop : Tensor) (i : nat) :
  Dict.getitem mv dir = Some (s, f) -> masked_crop env dir f = Ret crop ->
  Dict.getitem d2i dir = Some i -> (i < length tbl)%nat ->
  embed_object env mv d2i tbl dir = Ret (<[i := row_of env mv dir]> tbl).
Proof.
  intros Hget Hcrop Hidx Hlt. unfold embed_object, row_of, set_row.
  rewrite Hget. cbn. rewrite Hcrop. cbn. rewrite Hidx. cbn.
  rewrite decide_True by exact Hlt. reflexivity.
Qed.

Lemma embed_object_inv mv (d2i : list (string * nat)) tbl tbl' dir :
  embed_object env mv d2i tbl dir = Ret tbl' ->
  exists s f crop,
    Dict.getitem mv dir = Some (s, f) /\ masked_crop env dir f = Ret crop.
Proof.
  unfold embed_object. intros Hret.
  destruct (Dict.getitem mv dir) as [[s f]|]; cbn in Hret; [|discriminate].
  destruct (masked_crop env dir f) as [crop|e] eqn:Hc; cbn in Hret;
    [|discriminate].
  eauto.
Qed.

Lemma embed_for_crops mv (d2i : list (string * nat)) (ks : list string)
    tbl tbl' :
  py_for (embed_object env mv d2i) ks tbl = Ret tbl' ->
  forall dir, dir ∈ ks ->
    exists s f crop,
      Dict.getitem mv dir = Some (s, f) /\ masked_crop env dir f = Ret crop.
Proof.
  revert tbl. induction ks as [|k ks IH]; intros tbl Hret dir Hin.
  - apply elem_of_nil in Hin. contradiction.
  - cbn in Hret.
    destruct (embed_object env mv d2i tbl k) as [tbl1|e] eqn:Hk; cbn in Hret;
      [|discriminate].
    apply elem_of_cons in Hin as [->|Hin].
    + eapply embed_object_inv, Hk.
    + eapply IH; eauto.
Qed.

Lemma embed_for_spec (dirs : list string) mv (ks : list string) tbl :
  NoDup dirs -> length tbl = length dirs ->
  (forall dir, dir ∈ ks ->
     dir ∈ dirs /\
     exists s f crop,
       Dict.getitem mv dir = Some (s, f) /\ masked_crop env dir f = Ret crop) ->
  exists tbl',
    py_for (embed_object env mv (dir_to_idx dirs)) ks tbl = Ret tbl' /\
    length tbl' = length tbl /\
    forall (i : nat) dir, sorted dirs !! i = Some dir ->
      tbl' !! i = if decide (dir ∈ ks) then Some (row_of env mv dir)
                  else tbl !! i.
Proof.
  intros Hnd. revert tbl. induction ks as [|k ks IH]; intros tbl Hlen Hks.
  - exists tbl. split; [reflexivity|]. split; [reflexivity|].
    intros i dir _. rewrite decide_False by apply not_elem_of_nil. reflexivity.
  - destruct (Hks k) as (Hk & s & f & crop & Hget & Hcrop); [left|].
    destruct (sorted_index dirs k Hk) as [ik Hik].
    assert (ik < length tbl)%nat as Hlt.
    { rewrite Hlen, <- (length_Permutation_proper _ _ (sorted_Permutation dirs)).
      eapply lookup_lt_Some, Hik. }
    cbn [py_for].
    rewrite (embed_object_ret mv _ tbl k s f crop ik Hget Hcrop
               (dir_to_idx_lookup _ _ _ Hnd Hik) Hlt).
    cbn [py_bind].
    destruct (IH (<[ik := row_of env mv k]> tbl)) as (tbl' & Hret & Hlen' & Hrows).
    { rewrite length_insert. exact Hlen. }
    { intros dir Hin. apply Hks. right. exact Hin. }
    exists tbl'. split; [exact Hret|]. split.
    { rewrite Hlen', length_insert. reflexivity. }
    intros i dir Hi. rewrite (Hrows i dir Hi).
    destruct (decide (dir = k)) as [->|Hne].
    + assert (i = ik) as ->.
      { eapply (NoDup_lookup (sorted dirs)); [apply sorted_NoDup, Hnd | exact Hi | exact Hik]. }
      rewrite (decide_True (P := k ∈ k :: ks)) by left.
      destruct (decide (k ∈ ks)); [reflexivity|].
      apply list_lookup_insert_eq, Hlt.
    + assert (ik <> i) as Hi' by (intros ->; congruence).
      rewrite list_lookup_insert_ne by exact Hi'.
      destruct (decide (dir ∈ ks)) as [Hin|Hout].
      * rewrite decide_True by (right; exact Hin). reflexivity.
      * rewrite decide_False; [reflexivity|].
        rewrite not_elem_of_cons. split; assumption.
Qed.

(** The table after the second loop, row by row in sorted order. *)
Lemma embed_all_spec (dirs : list string) mv :
  NoDup dirs -> Dict.keys mv ≡ₚ dirs ->
  (forall dir, dir ∈ dirs ->
     exists s f crop,
       Dict.getitem mv dir = Some (s, f) /\ masked_crop env dir f = Ret crop) ->
  embed_all env dirs mv = Ret (row_of env mv <$> sorted dirs).
Proof.
  intros Hnd Hkeys Hcrops. unfold embed_all.
  assert (length mv = length dirs) as Hlen.
  { rewrite <- length_keys. apply length_Permutation_proper, Hkeys. }
  destruct (embed_for_spec dirs mv (Dict.keys mv)
              (replicate (length mv) (zero_row env)) Hnd)
    as (tbl' & Hret & Hlen' & Hrows).
  { rewrite length_replicate. exact Hlen. }
  { intros dir Hin. rewrite Hkeys in Hin. split; [exact Hin | apply Hcrops, Hin]. }
  rewrite Hret. f_equal. apply list_eq. intros i.
  rewrite list_lookup_fmap.
  destruct (sorted dirs !! i) as [dir|] eqn:Hi; cbn.
  - rewrite (Hrows i dir Hi). apply decide_True.
    rewrite Hkeys, <- (sorted_Permutation dirs).
    eapply list_elem_of_lookup_2, Hi.
  - apply lookup_ge_None. apply lookup_ge_None in Hi.
    rewrite Hlen', length_replicate, Hlen.
    rewrite <- (length_Permutation_proper _ _ (sorted_Permutation dirs)).
    exact Hi.
Qed.

Lemma row_of_ext mv mv' dir :
  Dict.getitem mv' dir = Dict.getitem mv dir ->
  row_of env mv' dir = row_of env mv dir.
Proof. intros E. unfold row_of. rewrite E. reflexivity. Qed.

End embed_facts.

(** ** extract_features as a whole *)

Section extract_facts.
Import ExtractFeatures.
Context (env : Env).

Lemma extract_features_inv (image_list : list Frame) (dirs : list string)
    (table : list (Row env)) :
  extract_features env image_list dirs = Ret table ->
  exists mv, scan env image_list dirs = Ret mv /\
             embed_all env dirs mv = Ret table.
Proof.
  unfold extract_features. intros Hret.
  destruct (scan env image_list dirs) as [mv|e]; cbn in Hret; [|discriminate].
  eauto.
Qed.

Lemma scan_getitem (image_list : list Frame) (dirs : list string)
    (mv : Visible) (dir : string) :
  scan env image_list dirs = Ret mv -> NoDup dirs -> dir ∈ dirs ->
  Dict.getitem mv dir = best_after env dir image_list None.
Proof.
  intros Hret Hnd Hd. apply (scan_from_getitem env _ _ _ _ _ Hret Hnd Hd).
Qed.

(** The table of a run that returns, row by row. *)
Lemma extract_features_table (frame : Frame) (frames : list Frame)
    (dirs : list string) (table : list (Row env)) :
  NoDup dirs ->
  extract_features env (frame :: frames) dirs = Ret table ->
  exists mv,
    scan env (frame :: frames) dirs = Ret mv /\
    Dict.keys mv = dirs /\
    (forall dir, dir ∈ dirs ->
       exists s f crop,
         Dict.getitem mv dir = Some (s, f) /\
         masked_crop env dir f = Ret crop) /\
    table = row_of env mv <$> sorted dirs.
Proof.
  intros Hnd Hret.
  destruct (extract_features_inv _ _ _ Hret) as (mv & Hscan & Hembed).
  pose proof (scan_keys env _ _ _ _ Hscan Hnd) as Hkeys.
  assert (forall dir, dir ∈ dirs ->
            exists s f crop,
              Dict.getitem mv dir = Some (s, f) /\
              masked_crop env dir f = Ret crop) as Hcrops.
  { intros dir Hd. unfold embed_all in Hembed.
    eapply embed_for_crops; [exact Hembed|]. rewrite Hkeys. exact Hd. }
  exists mv. split; [exact Hscan|]. split; [exact Hkeys|].
  split; [exact Hcrops|].
  rewrite (embed_all_spec env dirs mv Hnd) in Hembed.
  - injection Hembed as <-. reflexivity.
  - rewrite Hkeys. reflexivity.
  - exact Hcrops.
Qed.

End extract_facts.

(** C4, as the code has it. After a scan of at least one frame over
    distinct directory names, a run that returns has written a table with
    exactly one row per directory found at the start, whatever scores the
    directory got (a directory whose masks are all zero has its row too):
    the row of a directory stands at the directory's place in the sorted
    list of names and holds the embedding of the crop of the frame kept for
    it. The table is the same for every order in which the directories are
    found. *)
Theorem embedding_table_rows (env : Env) (frame : ExtractFeatures.Frame)
    (frames : list ExtractFeatures.Frame) (dirs : list string)
    (table : list (Row env)) :
  NoDup dirs ->
  ExtractFeatures.extract_features env (frame :: frames) dirs = Ret table ->
  length table = length dirs /\
  (exists mv,
     ExtractFeatures.scan env (frame :: frames) dirs = Ret mv /\
     forall dir, dir ∈ dirs ->
       exists (i : nat) (score : Z) (file : string) (crop : Tensor),
         ExtractFeatures.sorted dirs !! i = Some dir /\
         Dict.getitem mv dir = Some (score, file) /\
         ExtractFeatures.masked_crop env dir file = Ret crop /\
         table !! i = Some (encode_image env crop)) /\
  Sorted String.le (ExtractFeatures.sorted dirs) /\
  ExtractFeatures.sorted dirs ≡ₚ dirs /\
  (forall dirs', dirs' ≡ₚ dirs ->
     ExtractFeatures.extract_features env (frame :: frames) dirs' = Ret table).
Proof.
  intros Hnd Hret.
  destruct (extract_features_table env _ _ _ _ Hnd Hret)
    as (mv & Hscan & Hkeys & Hcrops & ->).
  split; [|split; [|split; [|split]]].
  - rewrite length_fmap. apply length_Permutation_proper, sorted_Permutation.
  - exists mv. split; [exact Hscan|]. intros dir Hd.
    destruct (sorted_index dirs dir Hd) as [i Hi].
    destruct (Hcrops dir Hd) as (s & f & crop & Hget & Hcrop).
    exists i, s, f, crop. repeat split; try assumption.
    rewrite list_lookup_fmap, Hi. cbn. unfold row_of.
    rewrite Hget, Hcrop. reflexivity.
  - apply sorted_Sorted.
  - apply sorted_Permutation.
  - intros dirs' Hp.
    assert (NoDup dirs') as Hnd' by (rewrite Hp; exact Hnd).
    destruct (scan_from_returns env (frame :: frames) dirs' []) as [mv' Hscan'].
    { eapply (scan_from_fits env), Hscan. }
    { intros fr dir Hf Hd. rewrite Hp in Hd.
      eapply (scan_from_scores env); eauto. }
    assert (forall dir, dir ∈ dirs ->
              Dict.getitem mv' dir = Dict.getitem mv dir) as Hsame.
    { intros dir Hd.
      rewrite (scan_getitem env _ _ _ _ Hscan Hnd Hd).
      apply (scan_getitem env _ _ _ _ Hscan' Hnd'). rewrite Hp. exact Hd. }
    unfold ExtractFeatures.extract_features.
    change (py_for (ExtractFeatures.scan_frame env dirs') (frame :: frames) [])
      with (ExtractFeatures.scan env (frame :: frames) dirs') in Hscan'.
    rewrite Hscan'. cbn [py_bind].
    rewrite (embed_all_spec env dirs' mv' Hnd').
    + rewrite (sorted_of_Permutation _ _ Hp). f_equal.
      apply list_fmap_ext. intros i dir Hi. apply row_of_ext, Hsame.
      rewrite <- (sorted_Permutation dirs). eapply list_elem_of_lookup_2, Hi.
    + rewrite (scan_keys env _ _ _ _ Hscan' Hnd'). reflexivity.
    + intros dir Hd. rewrite Hp in Hd. rewrite (Hsame dir Hd).
      apply Hcrops, Hd.
Qed.

(** C6, as the code has it. When the mask file of a directory found at the
    start is absent for a frame, visiting that pair raises
    FileNotFoundError whatever the records are, and neither the scan nor
    [extract_features] returns: they end with an exception. *)
Theorem missing_mask_stops_scan (env : Env)
    (image_list : list ExtractFeatures.Frame) (dirs : list string)
    (frame : ExtractFeatures.Frame) (dir : string) :
  frame ∈ image_list -> dir ∈ dirs ->
  open_mask env dir (ExtractFeatures.file frame +:+ ".png") = None ->
  (forall mv, ExtractFeatures.scan_mask env frame mv dir
              = Raise FileNotFoundError) /\
  (exists e, ExtractFeatures.scan env image_list dirs = Raise e) /\
  (exists e, ExtractFeatures.extract_features env image_list dirs = Raise e).
Proof.
  intros Hf Hd Hnone.
  assert (ExtractFeatures.visibility_score env frame dir
          = Raise FileNotFoundError) as Hscore.
  { unfold ExtractFeatures.visibility_score.
    destruct (ExtractFeatures.shape frame). rewrite Hnone. reflexivity. }
  assert (exists e, ExtractFeatures.scan env image_list dirs = Raise e) as [e He].
  { destruct (ExtractFeatures.scan env image_list dirs) as [mv|e] eqn:Hscan;
      [|eauto].
    destruct (scan_from_scores env _ _ _ _ Hscan frame dir Hf Hd) as [s Hs].
    rewrite Hscore in Hs. discriminate. }
  split; [|split].
  - intros mv. unfold ExtractFeatures.scan_mask. rewrite Hscore. reflexivity.
  - eauto.
  - exists e. unfold ExtractFeatures.extract_features. rewrite He. reflexivity.
Qed.

(** C10. The image returned by [mask.resize((W, H))] is dropped: the score
    of a directory for a frame is the sum of the binarized mask as it is
    stored, and the score does not change when the frame is given another
    height and width. So the records after the scan do not change either
    when the frames are given other heights and widths, as long as every
    frame has sides of at least 6 pixels before and after, which the
    reflection padding in front of the patch encoder asks for. *)
Theorem score_ignores_frame_shape (env : Env)
    (reshape : ExtractFeatures.Frame -> Z * Z) :
  let resized frame :=
    {| ExtractFeatures.shape := reshape frame;
       ExtractFeatures.file := ExtractFeatures.file frame |} in
  (forall frame dir,
     ExtractFeatures.visibility_score env frame dir =
     (let* mask := or_raise FileNotFoundError
                     (open_mask env dir (ExtractFeatures.file frame +:+ ".png")) in
      let* mask_data := Numpy.binarize mask in
      Ret (Numpy.np_sum mask_data))) /\
  (forall frame dir,
     ExtractFeatures.visibility_score env (resized frame) dir
     = ExtractFeatures.visibility_score env frame dir) /\
  (forall image_list dirs,
     Forall (fun frame =>
               (6 <= (ExtractFeatures.shape frame).1 /\
                6 <= (ExtractFeatures.shape frame).2) /\
               (6 <= (reshape frame).1 /\ 6 <= (reshape frame).2))
            image_list ->
     ExtractFeatures.scan env (resized <$> image_list) dirs
     = ExtractFeatures.scan env image_list dirs).
Proof.
  intros resized.
  assert (forall frame dir,
            ExtractFeatures.visibility_score env frame dir =
            (let* mask := or_raise FileNotFoundError
                (open_mask env dir (ExtractFeatures.file frame +:+ ".png")) in
             let* mask_data := Numpy.binarize mask in
             Ret (Numpy.np_sum mask_data))) as Hscore.
  { intros frame dir. unfold ExtractFeatures.visibility_score.
    destruct (ExtractFeatures.shape frame). reflexivity. }
  assert (forall frame dir,
            ExtractFeatures.visibility_score env (resized frame) dir
            = ExtractFeatures.visibility_score env frame dir) as Hsame.
  { intros frame dir. rewrite !Hscore. reflexivity. }
  split; [exact Hscore|]. split; [exact Hsame|].
  intros image_list dirs Hfit. unfold ExtractFeatures.scan.
  rewrite py_for_fmap. apply py_for_ext_in. intros mv frame Hin.
  rewrite Forall_forall in Hfit. destruct (Hfit frame Hin) as [Hold Hnew].
  rewrite (scan_frame_fits env dirs mv frame Hold).
  rewrite (scan_frame_fits env dirs mv (resized frame) Hnew).
  apply py_for_ext. intros mv' dir.
  unfold ExtractFeatures.scan_mask. rewrite Hsame. reflexivity.
Qed.

(** ** The entry point *)

Section driver_facts.
Import Driver.
Context (env : Env).

Lemma load_image_small (st : State) (file : string) (h w : Z) :
  h <= 1080 ->
  load_image env (-1) st (file, Some (h, w))
  = Ret {| globals := globals st; printed := printed st;
           img_list := img_list st ++ [((w, h), file)] |}.
Proof.
  intros Hh. unfold load_image, choose_scale. cbn.
  destruct (h >? 1080) eqn:G; [apply Z.gtb_gt in G; lia|].
  reflexivity.
Qed.

Lemma load_image_large (st : State) (file : string) (h w : Z) :
  1080 < h -> WARNED (globals st) = None ->
  load_image env (-1) st (file, Some (h, w)) = Raise NameError.
Proof.
  intros Hh Hw. unfold load_image, choose_scale. cbn.
  destruct (h >? 1080) eqn:G.
  - rewrite Hw. reflexivity.
  - rewrite Z.gtb_ltb in G. apply Z.ltb_ge in G. lia.
Qed.

Lemma loop_small (files : list (string * option (Z * Z))) (st : State) :
  Forall (fun entry => is_Some entry.2) files ->
  Forall (fun entry => forall h w, entry.2 = Some (h, w) -> h <= 1080) files ->
  py_for (load_image env (-1)) files st
  = Ret {| globals := globals st; printed := printed st;
           img_list := img_list st ++
             ((fun entry => (match entry.2 with
                             | Some (h, w) => (w, h)
                             | None => (0, 0)
                             end, entry.1)) <$> files) |}.
Proof.
  revert st. induction files as [|[file image] files IH]; intros st Hread Hsmall.
  - cbn. rewrite app_nil_r. destruct st; reflexivity.
  - apply Forall_cons in Hread as [[[h w] Himg] Hread].
    apply Forall_cons in Hsmall as [Hh Hsmall]. cbn in Himg, Hh. subst image.
    cbn [py_for]. rewrite load_image_small by (eapply Hh; reflexivity).
    cbn [py_bind]. rewrite (IH _ Hread Hsmall). cbn.
    rewrite <- app_assoc. reflexivity.
Qed.

Lemma loop_large (files : list (string * option (Z * Z))) (st : State) :
  WARNED (globals st) = None ->
  Forall (fun entry => is_Some entry.2) files ->
  Exists (fun entry => exists h w, entry.2 = Some (h, w) /\ 1080 < h) files ->
  py_for (load_image env (-1)) files st = Raise NameError.
Proof.
  revert st. induction files as [|[file image] files IH]; intros st Hw Hread Hex.
  - apply Exists_nil in Hex. contradiction.
  - apply Forall_cons in Hread as [[[h w] Himg] Hread]. cbn in Himg. subst image.
    cbn [py_for]. destruct (decide (1080 < h)) as [Hh|Hh].
    + rewrite load_image_large by assumption. reflexivity.
    + rewrite load_image_small by lia. cbn [py_bind]. apply IH.
      * exact Hw.
      * exact Hread.
      * apply Exists_cons in Hex as [(h' & w' & E & Hh')|Hex]; [|exact Hex].
        cbn in E. injection E as <- <-. lia.
Qed.

End driver_facts.

(** C9. With the default downsample setting -1 and files that all decode,
    starting with [WARNED] unbound: when some image is higher than 1080 the
    loop ends with a NameError, raised where [WARNED] is read; when no image
    is higher than 1080 the loop returns, with every image kept at its own
    size, nothing printed and the globals untouched, whatever [WARNED] is
    bound to. *)
Theorem warned_read_before_bound (env : Env)
    (files : list (string * option (Z * Z))) :
  Forall (fun entry => is_Some entry.2) files ->
  Driver.WARNED Driver.initial_globals = None /\
  (Exists (fun entry => exists h w, entry.2 = Some (h, w) /\ 1080 < h) files ->
   Driver.main_loop env (-1) Driver.initial_globals files = Raise NameError) /\
  (Forall (fun entry => forall h w, entry.2 = Some (h, w) -> h <= 1080) files ->
   forall g : Driver.Globals,
     Driver.main_loop env (-1) g files
     = Ret {| Driver.globals := g; Driver.printed := [];
              Driver.img_list :=
                (fun entry => (match entry.2 with
                               | Some (h, w) => (w, h)
                               | None => (0, 0)
                               end, entry.1)) <$> files |}).
Proof.
  intros Hread. split; [reflexivity|]. split.
  - intros Hex. unfold Driver.main_loop. apply loop_large; auto.
  - intros Hsmall g. unfold Driver.main_loop.
    rewrite (loop_small env files _ Hread Hsmall). reflexivity.
Qed.

(** ** When the run returns *)

Section returns_facts.
Import ExtractFeatures.
Context (env : Env).

Lemma visibility_score_returns (frame : Frame) (dir : string) (mask : Tensor) :
  open_mask env dir (file frame +:+ ".png") = Some mask ->
  Numpy.entries mask <> [] ->
  exists s, visibility_score env frame dir = Ret s.
Proof.
  intros Hopen Hne. unfold visibility_score. destruct (shape frame).
  rewrite Hopen. cbn.
  destruct (proj2 (binarize_returns_iff mask) Hne) as [md ->]. cbn. eauto.
Qed.

Lemma visibility_score_inv (frame : Frame) (dir : string) (s : Z) :
  visibility_score env frame dir = Ret s ->
  exists mask,
    open_mask env dir (file frame +:+ ".png") = Some mask /\
    Numpy.entries mask <> [].
Proof.
  unfold visibility_score. destruct (shape frame). intros Hret.
  destruct (open_mask env dir (file frame +:+ ".png")) as [mask|];
    cbn in Hret; [|discriminate].
  exists mask. split; [reflexivity|].
  apply binarize_returns_iff.
  destruct (Numpy.binarize mask) as [md|e]; cbn in Hret; [eauto | discriminate].
Qed.

(** The scan returns exactly when the reflection padding accepts every
    frame and every directory has a mask with at least one entry for every
    frame. *)
Lemma scan_returns_iff (image_list : list Frame) (dirs : list string) :
  (exists mv, scan env image_list dirs = Ret mv) <->
  (forall frame, frame ∈ image_list ->
     6 <= (shape frame).1 /\ 6 <= (shape frame).2) /\
  (forall frame dir, frame ∈ image_list -> dir ∈ dirs ->
     exists mask,
       open_mask env dir (file frame +:+ ".png") = Some mask /\
       Numpy.entries mask <> []).
Proof.
  split.
  - intros [mv Hscan]. split.
    + eapply (scan_from_fits env), Hscan.
    + intros frame dir Hf Hd.
      destruct (scan_from_scores env _ _ _ _ Hscan frame dir Hf Hd) as [s Hs].
      eapply visibility_score_inv, Hs.
  - intros [Hfit Hmasks]. apply scan_from_returns; [exact Hfit|].
    intros frame dir Hf Hd.
    destruct (Hmasks frame dir Hf Hd) as (mask & Hopen & Hne).
    eapply visibility_score_returns; eauto.
Qed.

(** The file kept for a directory is the file of a scanned frame. *)
Lemma best_after_file (Q : string -> Prop) (dir : string)
    (frames : list Frame) (r : option (Z * string)) :
  (forall frame, frame ∈ frames ->
     Q (file frame) /\ exists s, visibility_score env frame dir = Ret s) ->
  (r = None -> frames <> []) ->
  (forall s f, r = Some (s, f) -> Q f) ->
  exists s f, best_after env dir frames r = Some (s, f) /\ Q f.
Proof.
  revert r. induction frames as [|fr frames IH]; intros r Hfr Hnone Hsome.
  - destruct r as [[s f]|]; [|exfalso; apply Hnone; reflexivity].
    exists s, f. split; [reflexivity | eapply Hsome; reflexivity].
  - rewrite best_after_cons.
    destruct (Hfr fr) as (Hq & s & Hs); [left|].
    rewrite (best_after_one env _ _ _ _ Hs). apply IH.
    + intros frame Hin. apply Hfr. right. exact Hin.
    + discriminate.
    + intros s' f' E. injection E as E. unfold keep_best in E.
      destruct r as [[best f0]|].
      * destruct ((s, file fr).1 >? best); injection E as <- <-;
          [exact Hq | eapply Hsome; reflexivity].
      * injection E as <- <-. exact Hq.
Qed.

(** The records of the scan are those of the tracker run on the scores of
    the directory, frame after frame. *)
Lemma scan_tracks_observations (image_list : list Frame) (dirs : list string)
    (mv : Visible) (dir : string) :
  scan env image_list dirs = Ret mv -> NoDup dirs -> dir ∈ dirs ->
  exists obs : list (Z * string),
    Forall2 (fun frame o =>
               visibility_score env frame dir = Ret o.1 /\ o.2 = file frame)
            image_list obs /\
    Dict.getitem mv dir =
    Dict.getitem (fold_left (fun mv o => update mv dir o.1 o.2) obs []) dir.
Proof.
  intros Hscan Hnd Hd.
  rewrite (scan_getitem env _ _ _ _ Hscan Hnd Hd).
  pose proof (fun frame Hf => scan_from_scores env _ _ _ _ Hscan frame dir Hf Hd)
    as Hscores.
  clear Hscan. setoid_rewrite getitem_fold_update. cbn [Dict.getitem].
  generalize (@None (Z * string)) as r.
  induction image_list as [|fr frames IH]; intros r.
  - exists []. split; [constructor | reflexivity].
  - destruct (Hscores fr) as [s Hs]; [left|].
    destruct (IH (fun frame Hf => Hscores frame (list_elem_of_further _ _ _ Hf))
                 (Some (keep_best r (s, file fr)))) as (obs & Hobs & Heq).
    exists ((s, file fr) :: obs). split.
    + constructor; [split; [exact Hs | reflexivity] | exact Hobs].
    + rewrite best_after_cons, (best_after_one env _ _ _ _ Hs). exact Heq.
Qed.

(** With every mask and image in place and of one shape, the run returns
    its table. *)
Lemma extract_features_returns (frame : Frame) (frames : list Frame)
    (dirs : list string) :
  NoDup dirs ->
  (forall fr, fr ∈ frame :: frames ->
     6 <= (shape fr).1 /\ 6 <= (shape fr).2) ->
  (forall fr dir, fr ∈ frame :: frames -> dir ∈ dirs ->
     exists mask image,
       open_mask env dir (file fr +:+ ".png") = Some mask /\
       Numpy.entries mask <> [] /\
       open_rgb env (file fr) = Some image /\
       Numpy.same_shape mask image) ->
  exists table, extract_features env (frame :: frames) dirs = Ret table.
Proof.
  intros Hnd Hfit Hfiles.
  destruct (proj2 (scan_returns_iff (frame :: frames) dirs)) as [mv Hscan].
  { split; [exact Hfit|]. intros fr dir Hf Hd.
    destruct (Hfiles fr dir Hf Hd) as (mask & image & Hm & Hne & _). eauto. }
  unfold extract_features. rewrite Hscan. cbn [py_bind].
  eexists. apply (embed_all_spec env dirs mv Hnd).
  - rewrite (scan_keys env _ _ _ _ Hscan Hnd). reflexivity.
  - intros dir Hd. rewrite (scan_getitem env _ _ _ _ Hscan Hnd Hd).
    destruct (best_after_file
                (fun f => exists crop, masked_crop env dir f = Ret crop)
                dir (frame :: frames) None) as (s & f & -> & crop & Hcrop).
    + intros fr Hf.
      destruct (Hfiles fr dir Hf Hd) as (mask & image & Hm & Hne & Hi & Hs).
      split; [|eapply visibility_score_returns; eauto].
      unfold masked_crop. rewrite Hi, Hm. cbn.
      destruct (np_max_ret mask Hne) as (m & Hmax & _).
      rewrite (binarize_ret mask m Hmax). cbn.
      rewrite np_mul_same_shape by (apply same_shape_tmap, Hs). eauto.
    + discriminate.
    + discriminate.
    + eauto.
Qed.

End returns_facts.

(** ** Examples *)

Lemma uint8_photo : Numpy.uint8 photo.
Proof. unfold Numpy.uint8. cbn. repeat constructor; lia. Qed.

Lemma uint8_gray : Numpy.uint8 gray.
Proof. unfold Numpy.uint8. cbn. repeat constructor; lia. Qed.

Lemma binarize_keeps_maximum_witness :
  exists (m : Z) (md : Tensor),
    Numpy.np_max gray = Ret m /\ Numpy.binarize gray = Ret md /\
    Numpy.np_sum md =
      Z.of_nat (length (filter (fun v => 0 < v /\ v = m) (Numpy.entries gray))).
Proof.
  destruct (binarize_keeps_maximum gray uint8_gray ltac:(discriminate))
    as (m & md & Hmax & Hmd & _ & Hsum & _).
  exists m, md. repeat split; assumption.
Defined.

(** A mask with a gray pixel next to a white one: the gray pixel is
    positive and is mapped to 0, and the score 3 is not the number 6 of
    positive entries. *)
Lemma binarize_loses_gray_pixels :
  Numpy.uint8 gray /\
  Numpy.pixel gray 0 0 0 = Some 100 /\
  length (filter (fun v => 0 < v) (Numpy.entries gray)) = 6%nat /\
  exists md : Tensor,
    Numpy.binarize gray = Ret md /\
    Numpy.pixel md 0 0 0 = Some 0 /\
    Numpy.np_sum md = 3.
Proof.
  split; [exact uint8_gray|]. split; [reflexivity|]. split; [reflexivity|].
  exists [[[0; 0; 0]; [1; 1; 1]]]. repeat split; reflexivity.
Qed.

Lemma embedding_table_rows_witness :
  ExtractFeatures.extract_features example_world [frame1; frame2]
    ["chair"; "table"] = Ret [photo; blank].
Proof.
  assert (NoDup ["table"; "chair"]) as Hnd.
  { apply NoDup_cons. split; [|apply NoDup_singleton].
    intros H. apply list_elem_of_singleton in H. discriminate. }
  apply (embedding_table_rows example_world frame1 [frame2] ["table"; "chair"]
           [photo; blank] Hnd eq_refl).
  apply perm_swap.
Defined.

(** The table is never seen with a score other than 0, and it has its row:
    the table has two rows where one object was seen. *)
Lemma unseen_object_has_row :
  ExtractFeatures.visibility_score example_world frame1 "table" = Ret 0 /\
  ExtractFeatures.visibility_score example_world frame2 "table" = Ret 0 /\
  ExtractFeatures.scan example_world [frame1; frame2] ["table"; "chair"]
    = Ret [("table", (0, "0001.png")); ("chair", (6, "0002.png"))] /\
  exists table : list Tensor,
    ExtractFeatures.extract_features example_world [frame1; frame2]
      ["table"; "chair"] = Ret table /\
    length table = 2%nat /\
    table !! 1%nat = Some blank.
Proof.
  split; [reflexivity|]. split; [reflexivity|]. split; [reflexivity|].
  exists [photo; blank]. repeat split; reflexivity.
Qed.

Lemma zero_mask_keeps_record_witness :
  ExtractFeatures.scan_mask example_world frame2
    [("table", (3, "0000.png"))] "table"
  = Ret [("table", (3, "0000.png"))].
Proof.
  apply (zero_mask_keeps_record example_world frame2 "table" blank
           [("table", (3, "0000.png"))] 3 "0000.png").
  - reflexivity.
  - discriminate.
  - cbn. repeat constructor.
  - reflexivity.
  - lia.
Defined.

Lemma missing_mask_stops_scan_witness :
  exists e,
    ExtractFeatures.scan example_world_missing [frame1; frame2]
      ["table"; "chair"] = Raise e.
Proof.
  apply (missing_mask_stops_scan example_world_missing [frame1; frame2]
           ["table"; "chair"] frame2 "table").
  - right. left.
  - left.
  - reflexivity.
Defined.

(** The table's mask for the second frame is missing: the scan ends with
    FileNotFoundError and keeps no record, neither the table's from the
    first frame nor the chair's. *)
Lemma missing_mask_raises :
  "table" ∈ ["table"; "chair"] /\
  open_mask example_world_missing "table" "0002.png.png" = None /\
  ExtractFeatures.scan example_world_missing [frame1; frame2]
    ["table"; "chair"] = Raise FileNotFoundError /\
  ~ exists mv,
      ExtractFeatures.scan example_world_missing [frame1; frame2]
        ["table"; "chair"] = Ret mv.
Proof.
  split; [left|]. split; [reflexivity|]. split; [reflexivity|].
  intros [mv H]. discriminate H.
Qed.

Lemma masked_crop_pixels_witness :
  exists md crop : Tensor,
    Numpy.binarize half = Ret md /\
    ExtractFeatures.masked_crop example_world "chair" "0001.png" = Ret crop /\
    forall (y x c : nat) (p : Z),
      Numpy.pixel photo y x c = Some p ->
      exists b : Z,
        Numpy.pixel md y x c = Some b /\
        (b = 0 -> Numpy.pixel crop y x c = Some 0) /\
        (b = 1 -> Numpy.pixel crop y x c = Some p).
Proof.
  apply (masked_crop_pixels example_world "chair" "0001.png" photo half).
  - reflexivity.
  - reflexivity.
  - exact uint8_photo.
  - discriminate.
  - repeat constructor.
Defined.

Lemma warned_read_before_bound_witness :
  Driver.main_loop example_world (-1) Driver.initial_globals
    [("a.png", Some (720, 1280)); ("b.png", Some (2160, 3840))]
  = Raise NameError.
Proof.
  apply (warned_read_before_bound example_world
           [("a.png", Some (720, 1280)); ("b.png", Some (2160, 3840))]).
  - repeat constructor; eexists; reflexivity.
  - apply Exists_cons. right. apply Exists_cons. left.
    exists 2160, 3840. split; [reflexivity | lia].
Defined.

(** * Further properties *)

(** ** The padding *)

Lemma half_bounds (d : Z) :
  0 <= d <= 13 ->
  0 <= py_floor_div d 2 <= py_ceil_div d 2 /\
  py_ceil_div d 2 <= 7 /\ py_floor_div d 2 <= 6.
Proof.
  intros Hd.
  pose proof (py_ceil_div_spec d 2 ltac:(lia)).
  pose proof (py_floor_div_spec d 2 ltac:(lia)).
  lia.
Qed.

(** X1. Whatever the frame's shape, the aligner returns, and the paddings it
    returns are small: bottom and right are between 0 and 6, top and left
    are at least bottom and right and at most 7; the grid sizes are
    multiples of 14, and the grid has ceil(H/14) rows and ceil(W/14)
    columns. *)
Theorem padding_bounds (H W : Z) :
  exists g : GridAligner.StrideGrid,
    GridAligner.align H W = Ret g /\
    (let c := GridAligner.crop g in
     0 <= GridAligner.padding_bottom c <= GridAligner.padding_top c /\
     GridAligner.padding_top c <= 7 /\ GridAligner.padding_bottom c <= 6 /\
     0 <= GridAligner.padding_right c <= GridAligner.padding_left c /\
     GridAligner.padding_left c <= 7 /\ GridAligner.padding_right c <= 6) /\
    GridAligner.H_14 g mod 14 = 0 /\ GridAligner.W_14 g mod 14 = 0 /\
    GridAligner.grid_shape g = (py_ceil_div H 14, py_ceil_div W 14).
Proof.
  eexists. split; [apply align_returns|].
  cbn [GridAligner.H_14 GridAligner.W_14 GridAligner.crop
       GridAligner.padding_top GridAligner.padding_bottom
       GridAligner.padding_left GridAligner.padding_right].
  pose proof (grid_size_bounds H) as BH. pose proof (grid_size_bounds W) as BW.
  pose proof (half_bounds (py_ceil_div H 14 * 14 - H) ltac:(lia)).
  pose proof (half_bounds (py_ceil_div W 14 * 14 - W) ltac:(lia)).
  split; [lia|]. rewrite !Z.mod_mul by lia.
  split; [reflexivity|]. split; [reflexivity|].
  unfold GridAligner.grid_shape, py_floor_div. cbn.
  rewrite !Z.div_mul by lia. reflexivity.
Qed.

(** X2. For a frame with sides of at least one pixel, the top padding is
    smaller than the height exactly when the height is at least 6, and the
    left padding is smaller than the width exactly when the width is at
    least 6: these are the sizes for which the paddings handed to the
    reflection padding of lines 54-56 stay below the side they mirror. *)
Theorem padding_below_side (H W : Z) :
  1 <= H -> 1 <= W ->
  exists g : GridAligner.StrideGrid,
    GridAligner.align H W = Ret g /\
    (GridAligner.padding_top (GridAligner.crop g) < H <-> 6 <= H) /\
    (GridAligner.padding_left (GridAligner.crop g) < W <-> 6 <= W) /\
    (6 <= H -> GridAligner.padding_bottom (GridAligner.crop g) < H) /\
    (6 <= W -> GridAligner.padding_right (GridAligner.crop g) < W).
Proof.
  intros HH HW. eexists. split; [apply align_returns|].
  cbn [GridAligner.crop GridAligner.padding_top GridAligner.padding_bottom
       GridAligner.padding_left GridAligner.padding_right].
  assert (forall n, 1 <= n ->
            (py_ceil_div (py_ceil_div n 14 * 14 - n) 2 < n <-> 6 <= n) /\
            (6 <= n -> py_floor_div (py_ceil_div n 14 * 14 - n) 2 < n)) as Hside.
  { intros n Hn.
    pose proof (grid_size_bounds n) as B.
    pose proof (half_bounds (py_ceil_div n 14 * 14 - n) ltac:(lia)) as Hb.
    destruct (decide (8 <= n)) as [Hbig|Hsmall]; [lia|].
    assert (n = 1 \/ n = 2 \/ n = 3 \/ n = 4 \/ n = 5 \/ n = 6 \/ n = 7)
      as Hcases by lia.
    destruct Hcases as [->|[->|[->|[->|[->|[->| ->]]]]]];
      vm_compute; split; try split; intros; try discriminate; try reflexivity;
      try (exfalso; auto; fail). }
  destruct (Hside H HH) as [H1 H2]. destruct (Hside W HW) as [W1 W2].
  repeat split; try tauto.
Qed.

Lemma padding_below_side_witness :
  exists g : GridAligner.StrideGrid,
    GridAligner.align 5 150 = Ret g /\
    ~ GridAligner.padding_top (GridAligner.crop g) < 5.
Proof.
  destruct (padding_below_side 5 150 ltac:(lia) ltac:(lia))
    as (g & Hg & Htop & _).
  exists g. split; [exact Hg|]. intros Hlt. apply Htop in Hlt. lia.
Defined.

(** X3. A frame whose sides are multiples of 14 is its own grid and gets no
    padding; so aligning the grid of any frame again changes nothing. *)
Theorem align_multiple_of_stride (h w : Z) :
  GridAligner.align (14 * h) (14 * w) =
  Ret {| GridAligner.H_14 := 14 * h; GridAligner.W_14 := 14 * w;
         GridAligner.crop :=
           {| GridAligner.padding_top := 0; GridAligner.padding_bottom := 0;
              GridAligner.padding_left := 0; GridAligner.padding_right := 0 |} |}.
Proof.
  rewrite align_returns.
  assert (forall k, py_ceil_div (14 * k) 14 * 14 = 14 * k) as Hfix.
  { intros k. unfold py_ceil_div.
    replace (- (14 * k)) with ((- k) * 14) by lia.
    rewrite Z.div_mul by lia. lia. }
  rewrite !Hfix, !Z.sub_diag. reflexivity.
Qed.

(** X4. For a frame with sides of at least one pixel, every cell of the grid
    is the cell of some pixel of the unpadded frame: no row or column of
    cells lies in the padding alone. *)
Theorem grid_cell_onto (H W r c : Z) :
  1 <= H -> 1 <= W ->
  exists g : GridAligner.StrideGrid,
    GridAligner.align H W = Ret g /\
    (0 <= r < (GridAligner.grid_shape g).1 ->
     0 <= c < (GridAligner.grid_shape g).2 ->
     exists y x : Z,
       0 <= y < H /\ 0 <= x < W /\ GridAligner.grid_cell g y x = (r, c)).
Proof.
  intros HH HW. eexists. split; [apply align_returns|].
  unfold GridAligner.grid_shape, GridAligner.grid_cell, py_floor_div at 1 2.
  cbn [GridAligner.H_14 GridAligner.W_14 GridAligner.crop fst snd
       GridAligner.padding_top GridAligner.padding_left].
  rewrite !Z.div_mul by lia.
  assert (forall n k, 1 <= n -> 0 <= k < py_ceil_div n 14 ->
            exists y, 0 <= y < n /\
              py_floor_div (y + py_ceil_div (py_ceil_div n 14 * 14 - n) 2) 14 = k)
    as Hline.
  { intros n k Hn Hk.
    pose proof (grid_size_bounds n) as B.
    pose proof (half_bounds (py_ceil_div n 14 * 14 - n) ltac:(lia)) as Hb.
    destruct (py_ceil_floor_half (py_ceil_div n 14 * 14 - n)) as [Hsum _].
    set (pt := py_ceil_div (py_ceil_div n 14 * 14 - n) 2) in *.
    set (pb := py_floor_div (py_ceil_div n 14 * 14 - n) 2) in *.
    destruct (decide (pt <= 14 * k)) as [Hge|Hlt].
    - exists (14 * k - pt). split; [lia|]. unfold py_floor_div.
      replace (14 * k - pt + pt) with (k * 14) by lia.
      apply Z.div_mul. lia.
    - exists 0. split; [lia|]. unfold py_floor_div.
      assert (k = 0) as -> by lia. apply Z.div_small. lia. }
  intros Hr Hc.
  destruct (Hline H r HH Hr) as (y & Hy & Ey).
  destruct (Hline W c HW Hc) as (x & Hx & Ex).
  exists y, x. split; [exact Hy|]. split; [exact Hx|]. rewrite Ey, Ex.
  reflexivity.
Qed.

Lemma grid_cell_onto_witness :
  exists g : GridAligner.StrideGrid,
    GridAligner.align 100 150 = Ret g /\
    exists y x : Z,
      0 <= y < 100 /\ 0 <= x < 150 /\ GridAligner.grid_cell g y x = (7, 10).
Proof.
  destruct (grid_cell_onto 100 150 7 10 ltac:(lia) ltac:(lia))
    as (g & Hg & Hcell).
  exists g. split; [exact Hg|].
  assert (Ret g = GridAligner.align 100 150) as E by (symmetry; exact Hg).
  vm_compute in E. injection E as ->.
  apply Hcell; vm_compute; split; congruence.
Defined.

(** ** Binarized masks *)

Section binarized_facts.
Import Numpy.

Lemma binarize_entries (mask : Tensor) :
  uint8 mask -> entries mask <> [] ->
  exists m md,
    np_max mask = Ret m /\ m ∈ entries mask /\
    Forall (fun v => 0 <= v <= m) (entries mask) /\
    binarize mask = Ret md /\
    md = tmap (fun v => py_floor_div v (Z.max 1 m)) mask /\
    entries md =
      (fun v => if decide (0 < v /\ v = m) then 1 else 0) <$> entries mask.
Proof.
  intros Hu Hne. destruct (np_max_ret mask Hne) as (m & Hmax & Hin & Hle).
  destruct (binarize_by_maximum mask m (uint8_nonneg _ Hu) Hmax)
    as (md & Hmd & _ & Hent).
  exists m, md. split; [exact Hmax|]. split; [exact Hin|]. split.
  - apply uint8_nonneg in Hu. rewrite Forall_forall in Hu, Hle.
    apply Forall_forall. intros v Hv. split; auto.
  - split; [exact Hmd|]. split; [|exact Hent].
    rewrite (binarize_ret mask m Hmax) in Hmd. injection Hmd as <-. reflexivity.
Qed.

Lemma binarized_zero_one (mask md : Tensor) :
  uint8 mask -> binarize mask = Ret md ->
  Forall (fun v => v = 0 \/ v = 1) (entries md).
Proof.
  intros Hu Hmd.
  assert (entries mask <> []) as Hne by (apply binarize_returns_iff; eauto).
  destruct (binarize_entries mask Hu Hne) as (m & md' & _ & _ & _ & Hmd' & _ & Hent).
  rewrite Hmd in Hmd'. injection Hmd' as <-. rewrite Hent.
  apply Forall_fmap, Forall_forall. intros v _. cbn.
  destruct (decide (0 < v /\ v = m)); auto.
Qed.

Lemma tmap_id_on (f : Z -> Z) (t : Tensor) :
  Forall (fun v => f v = v) (entries t) -> tmap f t = t.
Proof.
  unfold entries, tmap. induction t as [|row t IH]; [reflexivity|].
  cbn [concat fmap list_fmap]. rewrite concat_app, Forall_app.
  intros [Hrow Ht]. rewrite (IH Ht). f_equal.
  clear IH Ht. induction row as [|px row IH]; cbn in *; [reflexivity|].
  rewrite Forall_app in Hrow. destruct Hrow as [Hpx Hrow].
  rewrite (IH Hrow). f_equal.
  clear IH Hrow. induction Hpx as [|v px Hv _ IH]; cbn; [reflexivity|].
  rewrite Hv, IH. reflexivity.
Qed.

Lemma filter_positive_zeros (m : Z) (vs : list Z) :
  Forall (fun v => v = 0) vs -> filter (fun v => 0 < v /\ v = m) vs = [].
Proof.
  induction 1 as [|v vs -> _ IH]; [reflexivity|].
  rewrite filter_cons_False by lia. exact IH.
Qed.

End binarized_facts.

(** X5. For a non-empty mask of 8-bit entries, the binarized mask holds only
    0 and 1, so the score lies between 0 and the number of entries of the
    mask, and the score is 0 exactly when the mask is all zero. *)
Theorem score_bounds (mask : Tensor) :
  Numpy.uint8 mask -> Numpy.entries mask <> [] ->
  exists md : Tensor,
    Numpy.binarize mask = Ret md /\
    Forall (fun v => v = 0 \/ v = 1) (Numpy.entries md) /\
    0 <= Numpy.np_sum md <= Z.of_nat (length (Numpy.entries mask)) /\
    (Numpy.np_sum md = 0 <-> Forall (fun v => v = 0) (Numpy.entries mask)).
Proof.
  intros Hu Hne.
  destruct (binarize_entries mask Hu Hne)
    as (m & md & Hmax & Hin & Hrange & Hmd & _ & Hent).
  exists md. split; [exact Hmd|].
  split; [eapply binarized_zero_one; eauto|].
  assert (Numpy.np_sum md =
          Z.of_nat (length (filter (fun v => 0 < v /\ v = m)
                                   (Numpy.entries mask)))) as Hsum.
  { unfold Numpy.np_sum. rewrite Hent.
    apply (foldr_add_indicator (fun v => 0 < v /\ v = m)). }
  split.
  - rewrite Hsum.
    pose proof (length_filter (fun v => 0 < v /\ v = m) (Numpy.entries mask)).
    lia.
  - rewrite Hsum. split.
    + intros Hz. assert (~ 0 < m) as Hm.
      { intros Hpos.
        assert (m ∈ filter (fun v => 0 < v /\ v = m) (Numpy.entries mask)) as Hf.
        { apply list_elem_of_filter. auto. }
        destruct (filter _ _); [apply elem_of_nil in Hf; exact Hf | cbn in Hz; lia]. }
      eapply Forall_impl; [exact Hrange|]. cbn. intros v Hv. lia.
    + intros Hz. rewrite (filter_positive_zeros _ _ Hz). reflexivity.
Qed.

Lemma score_bounds_witness :
  exists md : Tensor,
    Numpy.binarize gray = Ret md /\
    0 <= Numpy.np_sum md <= Z.of_nat (length (Numpy.entries gray)).
Proof.
  destruct (score_bounds gray uint8_gray ltac:(discriminate))
    as (md & Hmd & _ & Hb & _).
  exists md. split; assumption.
Defined.

(** X6. Binarizing is idempotent: for a non-empty mask of 8-bit entries,
    binarizing the binarized mask returns it unchanged. *)
Theorem binarize_idempotent (mask : Tensor) :
  Numpy.uint8 mask -> Numpy.entries mask <> [] ->
  exists md : Tensor,
    Numpy.binarize mask = Ret md /\ Numpy.binarize md = Ret md.
Proof.
  intros Hu Hne.
  destruct (binarize_entries mask Hu Hne)
    as (m & md & _ & _ & _ & Hmd & _ & Hent).
  exists md. split; [exact Hmd|].
  pose proof (binarized_zero_one mask md Hu Hmd) as H01.
  assert (Numpy.entries md <> []) as Hne'.
  { rewrite Hent. intros E. apply fmap_nil_inv in E. contradiction. }
  destruct (np_max_ret md Hne') as (m' & Hmax' & Hin' & _).
  rewrite (binarize_ret md m' Hmax'). f_equal. apply tmap_id_on.
  assert (m' = 0 \/ m' = 1) as Hm'.
  { rewrite Forall_forall in H01. apply H01, Hin'. }
  eapply Forall_impl; [exact H01|]. cbn. intros v Hv. unfold py_floor_div.
  replace (Z.max 1 m') with 1 by lia. apply Z.div_1_r.
Qed.

Lemma binarize_idempotent_witness :
  exists md : Tensor,
    Numpy.binarize gray = Ret md /\ Numpy.binarize md = Ret md.
Proof.
  apply (binarize_idempotent gray uint8_gray). discriminate.
Defined.

(** ** Crops *)

Section crop_facts.
Import Numpy.

Lemma zip3_Forall (P : Z -> Prop) (g : Z -> Z -> Z) (a b : Tensor) :
  (forall u p, P (g u p)) ->
  Forall P (entries (zip_with (zip_with (zip_with g)) a b)).
Proof.
  intros Hg. unfold entries. revert b.
  induction a as [|ra a IH]; intros [|rb b]; cbn; try constructor.
  rewrite concat_app. apply Forall_app. split; [|apply IH].
  clear IH. revert rb. induction ra as [|px ra IH]; intros [|q rb]; cbn;
    try constructor.
  apply Forall_app. split; [|apply IH].
  clear IH. revert q. induction px as [|u px IH]; intros [|p q]; cbn;
    try constructor; auto.
Qed.

Lemma same_shape_zip3 (g : Z -> Z -> Z) (a b : Tensor) :
  same_shape a b -> same_shape (zip_with (zip_with (zip_with g)) a b) b.
Proof.
  unfold same_shape. induction 1 as [|ra rb a b Hr _ IH]; cbn; constructor;
    [|exact IH].
  clear IH. induction Hr as [|px q ra rb Hpq _ IH]; cbn; constructor;
    [|exact IH].
  rewrite length_zip_with. lia.
Qed.

Lemma zip_with_const (P Q : Z -> Prop) (g : Z -> Z -> Z) (h : Z -> Z)
    (px q : list Z) :
  (forall u p, P u -> Q p -> g u p = h p) ->
  length px = length q -> Forall P px -> Forall Q q ->
  zip_with g px q = h <$> q.
Proof.
  intros Hg. revert q. induction px as [|u px IH]; intros [|p q] Hlen HP HQ;
    cbn in *; try reflexivity; try discriminate.
  apply Forall_cons in HP as [Hu HP]. apply Forall_cons in HQ as [Hp HQ].
  rewrite (Hg u p Hu Hp), (IH q) by (auto; lia). reflexivity.
Qed.

(** Where the factor on the left does not matter, the product is a map over
    the array on the right. *)
Lemma zip3_const (P Q : Z -> Prop) (g : Z -> Z -> Z) (h : Z -> Z)
    (a b : Tensor) :
  (forall u p, P u -> Q p -> g u p = h p) ->
  same_shape a b -> Forall P (entries a) -> Forall Q (entries b) ->
  zip_with (zip_with (zip_with g)) a b = tmap h b.
Proof.
  intros Hg. unfold same_shape, entries, tmap.
  induction 1 as [|ra rb a b Hr _ IH]; [reflexivity|].
  cbn [concat]. rewrite !concat_app, !Forall_app. intros [HPr HP] [HQr HQ].
  cbn. rewrite (IH HP HQ). f_equal. clear IH HP HQ.
  induction Hr as [|px q ra rb Hpq _ IH]; [reflexivity|].
  cbn [concat] in HPr, HQr. rewrite Forall_app in HPr, HQr.
  destruct HPr as [HPp HPr]. destruct HQr as [HQq HQr].
  cbn. rewrite (IH HPr HQr). f_equal.
  eapply zip_with_const; eauto.
Qed.

Lemma has_shape_tmap (f : Z -> Z) (t : Tensor) (h w c : nat) :
  has_shape t h w c -> has_shape (tmap f t) h w c.
Proof.
  unfold has_shape, tmap. intros [Hh Hrows]. split.
  - rewrite length_fmap. exact Hh.
  - apply Forall_fmap. eapply Forall_impl; [exact Hrows|]. cbn.
    intros row [Hw Hpx]. split; [rewrite length_fmap; exact Hw|].
    apply Forall_fmap. eapply Forall_impl; [exact Hpx|]. cbn.
    intros px Hc. rewrite length_fmap. exact Hc.
Qed.

Lemma has_shape_same (a b : Tensor) (h w c : nat) :
  has_shape a h w c -> has_shape b h w c -> same_shape a b.
Proof.
  unfold has_shape, same_shape. intros [Ha Hra] [Hb Hrb].
  apply Forall2_same_length_lookup_2; [congruence|].
  intros i ra rb Hia Hib.
  rewrite Forall_lookup in Hra, Hrb.
  destruct (Hra i ra Hia) as [Hwa Hpa]. destruct (Hrb i rb Hib) as [Hwb Hpb].
  apply Forall2_same_length_lookup_2; [congruence|].
  intros j p q Hjp Hjq. rewrite Forall_lookup in Hpa, Hpb.
  rewrite (Hpa j p Hjp), (Hpb j q Hjq). reflexivity.
Qed.

Lemma has_shape_entries (t : Tensor) (h w c : nat) :
  has_shape t h w c -> (0 < h)%nat -> (0 < w)%nat -> (0 < c)%nat ->
  entries t <> [].
Proof.
  unfold has_shape, entries. intros [Hh Hrows] Hh0 Hw0 Hc0.
  destruct t as [|row t]; [cbn in Hh; lia|].
  apply Forall_cons in Hrows as [[Hw Hpx] _].
  destruct row as [|px row]; [cbn in Hw; lia|].
  apply Forall_cons in Hpx as [Hc _].
  destruct px as [|v px]; [cbn in Hc; lia|]. discriminate.
Qed.

Lemma broadcast_mismatch {A B C : Type} (f : A -> B -> py C)
    (xs : list A) (ys : list B) :
  length xs <> length ys -> (2 <= length xs)%nat -> (2 <= length ys)%nat ->
  broadcast f xs ys = Raise ValueError.
Proof.
  intros Hne Hx Hy. unfold broadcast. rewrite decide_False by exact Hne.
  destruct xs as [|x [|x' xs]]; cbn in Hx; try lia.
  destruct ys as [|y [|y' ys]]; cbn in Hy; try lia. reflexivity.
Qed.

Lemma broadcast_head_raises {A B C : Type} (f : A -> B -> py C)
    (x : A) (xs : list A) (y : B) (ys : list B) (e : exn) :
  length xs = length ys -> f x y = Raise e ->
  broadcast f (x :: xs) (y :: ys) = Raise e.
Proof.
  intros Hlen Hf. unfold broadcast.
  rewrite decide_True by (cbn; congruence).
  change (zip (x :: xs) (y :: ys)) with ((x, y) :: zip xs ys).
  cbn [py_mapM fst snd]. rewrite Hf. reflexivity.
Qed.

(** Arrays of at least two rows, columns and channels that differ in shape
    have no product. *)
Lemma np_mul_mismatch (a b : Tensor) (h1 w1 c1 h2 w2 c2 : nat) :
  has_shape a h1 w1 c1 -> has_shape b h2 w2 c2 ->
  (2 <= h1)%nat -> (2 <= w1)%nat -> (2 <= c1)%nat ->
  (2 <= h2)%nat -> (2 <= w2)%nat -> (2 <= c2)%nat ->
  (h1, w1, c1) <> (h2, w2, c2) ->
  np_mul a b = Raise ValueError.
Proof.
  unfold has_shape. intros [Ha Hra] [Hb Hrb] Hh1 Hw1 Hc1 Hh2 Hw2 Hc2 Hne.
  unfold np_mul.
  destruct (decide (h1 = h2)) as [Hh|Hh];
    [|apply broadcast_mismatch; lia].
  destruct a as [|ra a]; [cbn in Ha; lia|].
  destruct b as [|rb b]; [cbn in Hb; lia|].
  apply Forall_cons in Hra as [[Hwa Hpa] _].
  apply Forall_cons in Hrb as [[Hwb Hpb] _].
  apply broadcast_head_raises; [cbn in Ha, Hb; lia|].
  destruct (decide (w1 = w2)) as [Hw|Hw];
    [|apply broadcast_mismatch; lia].
  destruct ra as [|p ra]; [cbn in Hwa; lia|].
  destruct rb as [|q rb]; [cbn in Hwb; lia|].
  apply Forall_cons in Hpa as [Hp _]. apply Forall_cons in Hpb as [Hq _].
  apply broadcast_head_raises; [cbn in Hwa, Hwb; lia|].
  apply broadcast_mismatch; try lia.
  intros E. apply Hne. congruence.
Qed.

End crop_facts.

Lemma masked_crop_product (env : Env) (dir file : string)
    (image mask md : Tensor) :
  open_rgb env file = Some image ->
  open_mask env dir (file +:+ ".png") = Some mask ->
  Numpy.binarize mask = Ret md ->
  ExtractFeatures.masked_crop env dir file = Numpy.np_mul md image.
Proof.
  intros Hrgb Hmask Hmd. unfold ExtractFeatures.masked_crop.
  rewrite Hrgb, Hmask. cbn. rewrite Hmd. reflexivity.
Qed.

(** X7. The crop built from an 8-bit image and a non-empty 8-bit mask of the
    image's shape has the image's shape and 8-bit entries, and each of its
    entries is either 0 or the image's entry at that place: the crop never
    holds a value the image does not hold there. *)
Theorem masked_crop_within_image (env : Env) (dir file : string)
    (image mask : Tensor) :
  open_rgb env file = Some image ->
  open_mask env dir (file +:+ ".png") = Some mask ->
  Numpy.uint8 image -> Numpy.uint8 mask -> Numpy.entries mask <> [] ->
  Numpy.same_shape mask image ->
  exists crop : Tensor,
    ExtractFeatures.masked_crop env dir file = Ret crop /\
    Numpy.same_shape crop image /\
    Numpy.uint8 crop /\
    forall (y x c : nat) (p : Z),
      Numpy.pixel image y x c = Some p ->
      Numpy.pixel crop y x c = Some 0 \/ Numpy.pixel crop y x c = Some p.
Proof.
  intros Hrgb Hmask Hu Hum Hne Hs.
  destruct (binarize_entries mask Hum Hne)
    as (m & md & _ & _ & _ & Hmd & Hmd_eq & _).
  assert (Numpy.same_shape md image) as Hs'.
  { rewrite Hmd_eq. apply same_shape_tmap, Hs. }
  exists (zip_with (zip_with (zip_with Numpy.mul_uint8)) md image).
  split.
  { rewrite (masked_crop_product env dir file image mask md Hrgb Hmask Hmd).
    apply np_mul_same_shape, Hs'. }
  split; [apply same_shape_zip3, Hs'|]. split.
  { apply zip3_Forall. intros u p. unfold Numpy.mul_uint8.
    apply Z.mod_pos_bound. lia. }
  intros y x c p Hp.
  destruct (same_shape_pixel md image y x c p Hs' Hp) as [b Hb].
  rewrite (pixel_zip_with _ _ _ _ _ _ _ _ Hb Hp). unfold Numpy.mul_uint8.
  assert (0 <= p < 256) as Hp8.
  { unfold Numpy.uint8 in Hu. rewrite Forall_forall in Hu.
    apply Hu. eapply pixel_entries, Hp. }
  pose proof (binarized_zero_one mask md Hum Hmd) as H01.
  rewrite Forall_forall in H01.
  destruct (H01 b (pixel_entries _ _ _ _ _ Hb)) as [-> | ->].
  - left. reflexivity.
  - right. rewrite Z.mul_1_l, Z.mod_small by lia. reflexivity.
Qed.

Lemma masked_crop_within_image_witness :
  exists crop : Tensor,
    ExtractFeatures.masked_crop example_world "chair" "0001.png" = Ret crop /\
    Numpy.same_shape crop photo /\ Numpy.uint8 crop.
Proof.
  destruct (masked_crop_within_image example_world "chair" "0001.png"
              photo half) as (crop & Hc & Hs & Hu & _).
  - reflexivity.
  - reflexivity.
  - exact uint8_photo.
  - unfold Numpy.uint8. cbn. repeat constructor; lia.
  - discriminate.
  - repeat constructor.
  - exists crop. repeat split; assumption.
Defined.

(** X8. With a non-empty mask of the image's shape whose entries all hold one
    8-bit value: when the value is positive (the object fills the frame) the
    crop is the image itself, and when it is 0 (the object is not in the
    frame) the crop is the image with every entry set to 0. *)
Theorem masked_crop_uniform_mask (env : Env) (dir file : string)
    (image mask : Tensor) (v : Z) :
  open_rgb env file = Some image ->
  open_mask env dir (file +:+ ".png") = Some mask ->
  Numpy.uint8 image -> Numpy.entries mask <> [] ->
  Numpy.same_shape mask image ->
  0 <= v < 256 -> Forall (fun u => u = v) (Numpy.entries mask) ->
  ExtractFeatures.masked_crop env dir file =
  Ret (if decide (0 < v) then image else Numpy.tmap (fun _ => 0) image).
Proof.
  intros Hrgb Hmask Hu Hne Hs Hv Hall.
  assert (Numpy.uint8 mask) as Hum.
  { unfold Numpy.uint8. eapply Forall_impl; [exact Hall|]. cbn.
    intros u ->. exact Hv. }
  destruct (binarize_entries mask Hum Hne)
    as (m & md & _ & Hin & _ & Hmd & Hmd_eq & Hent).
  assert (m = v) as -> by (rewrite Forall_forall in Hall; apply Hall, Hin).
  assert (Numpy.same_shape md image) as Hs'.
  { rewrite Hmd_eq. apply same_shape_tmap, Hs. }
  rewrite (masked_crop_product env dir file image mask md Hrgb Hmask Hmd).
  rewrite (np_mul_same_shape _ _ Hs'). f_equal.
  assert (Forall (fun u => u = if decide (0 < v) then 1 else 0)
                 (Numpy.entries md)) as Hmd_all.
  { rewrite Hent. apply Forall_fmap. eapply Forall_impl; [exact Hall|]. cbn.
    intros u ->. repeat case_decide; try reflexivity; lia. }
  destruct (decide (0 < v)) as [Hpos|Hzero].
  - rewrite (zip3_const (fun u => u = 1) (fun p => 0 <= p < 256)
               Numpy.mul_uint8 (fun p => p) md image); auto.
    + apply tmap_id_on, Forall_forall. reflexivity.
    + intros u p -> Hp. unfold Numpy.mul_uint8.
      rewrite Z.mul_1_l. apply Z.mod_small. exact Hp.
  - apply (zip3_const (fun u => u = 0) (fun _ => True)); auto.
    + intros u p -> _. reflexivity.
    + apply Forall_forall. auto.
Qed.

Lemma masked_crop_uniform_mask_witness :
  ExtractFeatures.masked_crop example_world "chair" "0002.png" = Ret photo.
Proof.
  apply (masked_crop_uniform_mask example_world "chair" "0002.png"
           photo full 255).
  - reflexivity.
  - reflexivity.
  - exact uint8_photo.
  - discriminate.
  - repeat constructor.
  - lia.
  - cbn. repeat constructor.
Defined.

(** X9. With an image and a mask of at least two rows, two columns and two
    channels each, mask not empty: the crop is built when the two have the
    same shape, and building it raises ValueError when their shapes
    differ. *)
Theorem masked_crop_shape_mismatch (env : Env) (dir file : string)
    (image mask : Tensor) (h1 w1 c1 h2 w2 c2 : nat) :
  open_rgb env file = Some image ->
  open_mask env dir (file +:+ ".png") = Some mask ->
  has_shape mask h1 w1 c1 -> has_shape image h2 w2 c2 ->
  (2 <= h1)%nat /\ (2 <= w1)%nat /\ (2 <= c1)%nat ->
  (2 <= h2)%nat /\ (2 <= w2)%nat /\ (2 <= c2)%nat ->
  ((h1, w1, c1) = (h2, w2, c2) ->
   exists crop, ExtractFeatures.masked_crop env dir file = Ret crop /\
                has_shape crop h2 w2 c2) /\
  ((h1, w1, c1) <> (h2, w2, c2) ->
   ExtractFeatures.masked_crop env dir file = Raise ValueError).
Proof.
  intros Hrgb Hmask Hm Hi (Hh1 & Hw1 & Hc1) (Hh2 & Hw2 & Hc2).
  assert (Numpy.entries mask <> []) as Hne.
  { apply (has_shape_entries mask h1 w1 c1 Hm); lia. }
  destruct (np_max_ret mask Hne) as (m & Hmax & _).
  pose proof (binarize_ret mask m Hmax) as Hmd.
  set (md := Numpy.tmap (fun v => py_floor_div v (Z.max 1 m)) mask) in *.
  assert (has_shape md h1 w1 c1) as Hmds by (apply has_shape_tmap, Hm).
  rewrite (masked_crop_product env dir file image mask md Hrgb Hmask Hmd).
  split.
  - intros E. injection E as -> -> ->.
    pose proof (has_shape_same _ _ _ _ _ Hmds Hi) as Hs.
    rewrite (np_mul_same_shape _ _ Hs). eexists. split; [reflexivity|].
    clear - Hs Hi. unfold has_shape in *. destruct Hi as [Hlen Hrows].
    pose proof (same_shape_zip3 Numpy.mul_uint8 _ _ Hs) as Hz.
    unfold Numpy.same_shape in Hz. split.
    + rewrite (Forall2_length _ _ _ Hz). exact Hlen.
    + apply Forall_lookup. intros i row Hrow.
      destruct (Forall2_lookup_l _ _ _ _ _ Hz Hrow) as (rb & Hrb & Hrr).
      rewrite Forall_lookup in Hrows. destruct (Hrows i rb Hrb) as [Hw Hpx].
      split; [rewrite (Forall2_length _ _ _ Hrr); exact Hw|].
      apply Forall_lookup. intros j px Hj.
      destruct (Forall2_lookup_l _ _ _ _ _ Hrr Hj) as (q & Hq & Hlen').
      rewrite Forall_lookup in Hpx. rewrite Hlen'. eapply Hpx, Hq.
  - intros Hne'. eapply np_mul_mismatch; eauto.
Qed.

Lemma masked_crop_shape_mismatch_witness :
  ExtractFeatures.masked_crop
    (world [("chair", [("1.png.png",
                        [[[255; 255; 255]; [0; 0; 0]];
                         [[0; 0; 0]; [255; 255; 255]]])])]
           [("1.png", [[[1; 2; 3]; [4; 5; 6]; [7; 8; 9]];
                       [[10; 11; 12]; [13; 14; 15]; [16; 17; 18]]])])
    "chair" "1.png" = Raise ValueError.
Proof.
  eapply (masked_crop_shape_mismatch _ "chair" "1.png" _ _ 2 2 3 2 3 3).
  - reflexivity.
  - reflexivity.
  - split; [reflexivity|]. repeat constructor.
  - split; [reflexivity|]. repeat constructor.
  - lia.
  - lia.
  - discriminate.
Defined.

(** ** Records and scans *)

(** X10. One update of the records touches one directory only: the records
    of the other directories stay, no key is removed or moved, the
    directory is added at the end when it had no record, and the score it
    holds afterwards is the greater of the score it held and the new one. *)
Theorem update_keeps_the_rest (mv : list (string * (Z * string)))
    (dir : string) (score : Z) (file : string) :
  (forall dir', dir' <> dir ->
     Dict.getitem (ExtractFeatures.update mv dir score file) dir'
     = Dict.getitem mv dir') /\
  Dict.keys (ExtractFeatures.update mv dir score file)
  = (if decide (dir ∈ Dict.keys mv) then Dict.keys mv
     else Dict.keys mv ++ [dir]) /\
  (exists s f,
     Dict.getitem (ExtractFeatures.update mv dir score file) dir = Some (s, f) /\
     s = match Dict.getitem mv dir with
         | Some (best, _) => Z.max best score
         | None => score
         end).
Proof.
  split; [|split].
  - intros dir' Hne. apply getitem_update_ne. congruence.
  - destruct (decide (dir ∈ Dict.keys mv)) as [Hin|Hout].
    + apply keys_update_present, Hin.
    + apply keys_update_absent, Hout.
  - rewrite getitem_update_eq. unfold keep_best.
    destruct (Dict.getitem mv dir) as [[best f0]|]; cbn.
    + destruct (score >? best) eqn:G.
      * apply Z.gtb_gt in G. exists score, file. split; [reflexivity | lia].
      * rewrite Z.gtb_ltb in G. apply Z.ltb_ge in G.
        exists best, f0. split; [reflexivity | lia].
    + exists score, file. split; reflexivity.
Qed.

Section scan_more.
Import ExtractFeatures.
Context (env : Env).

Lemma scan_nil (dirs : list string) : scan env [] dirs = Ret [].
Proof. reflexivity. Qed.

Lemma scan_keys_any (image_list : list Frame) (dirs : list string)
    (mv : Visible) :
  scan env image_list dirs = Ret mv -> NoDup dirs ->
  Dict.keys mv = match image_list with [] => [] | _ :: _ => dirs end.
Proof.
  intros Hscan Hnd. destruct image_list as [|frame frames].
  - cbn in Hscan. injection Hscan as <-. reflexivity.
  - eapply scan_keys; eauto.
Qed.

(** The record of a directory after the scan: the first frame with the
    greatest score. *)
Lemma scan_first_maximum (image_list : list Frame) (dirs : list string)
    (mv : Visible) (dir : string) :
  scan env image_list dirs = Ret mv -> NoDup dirs -> dir ∈ dirs ->
  image_list <> [] ->
  exists (i : nat) (frame : Frame) (s : Z),
    image_list !! i = Some frame /\
    visibility_score env frame dir = Ret s /\
    Dict.getitem mv dir = Some (s, file frame) /\
    forall (j : nat) (fr : Frame) (s' : Z),
      image_list !! j = Some fr -> visibility_score env fr dir = Ret s' ->
      s' <= s /\ ((j < i)%nat -> s' < s).
Proof.
  intros Hscan Hnd Hd Hne.
  destruct (scan_tracks_observations env _ _ _ _ Hscan Hnd Hd)
    as (obs & Hobs & Hget).
  rewrite getitem_fold_update in Hget. cbn [Dict.getitem] in Hget.
  destruct Hobs as [|fr0 o frames obs' [Ho0 Hf0] Hobs]; [contradiction|].
  cbn [fold_left keep_best] in Hget.
  destruct (keep_best_first_maximum obs' o) as (r & Hr & Hcase).
  rewrite Hr in Hget.
  assert (forall j fr s', frames !! j = Some fr ->
            visibility_score env fr dir = Ret s' ->
            exists f, obs' !! j = Some (s', f)) as Hback.
  { intros j fr s' Hj Hs'.
    destruct (Forall2_lookup_l _ _ _ _ _ Hobs Hj) as ([s2 f2] & Hoj & Hs2 & _).
    cbn in Hs2. rewrite Hs' in Hs2. injection Hs2 as <-. eauto. }
  destruct Hcase as [[-> Hall]|(i & Hi & Hlt & Hall & Hbefore)].
  - exists 0%nat, fr0, o.1. split; [reflexivity|]. split; [exact Ho0|].
    split; [rewrite Hget, <- Hf0; destruct o; reflexivity|].
    intros [|j] fr s' Hj Hs'; cbn in Hj.
    + injection Hj as <-. rewrite Ho0 in Hs'. injection Hs' as <-. lia.
    + destruct (Hback j fr s' Hj Hs') as [f Hoj].
      pose proof (Hall j _ Hoj) as Hle. cbn in Hle. lia.
  - destruct (Forall2_lookup_r _ _ _ _ _ Hobs Hi) as (frame & Hframe & Hs & Hf).
    exists (S i), frame, r.1. split; [exact Hframe|]. split; [exact Hs|].
    split; [rewrite Hget, <- Hf; destruct r; reflexivity|].
    intros [|j] fr s' Hj Hs'; cbn in Hj.
    + injection Hj as <-. rewrite Ho0 in Hs'. injection Hs' as <-. lia.
    + destruct (Hback j fr s' Hj Hs') as [f Hoj].
      pose proof (Hall j _ Hoj) as Hle. cbn in Hle. split; [lia|].
      intros Hji. pose proof (Hbefore j _ ltac:(lia) Hoj) as Hlt'.
      cbn in Hlt'. lia.
Qed.

End scan_more.

(** X11. After a scan that returns, over distinct directory names, the keys
    of the records are the directories in the order they were found when
    at least one frame was scanned, and there is no record at all when no
    frame was scanned. *)
Theorem scan_keys_are_dirs (env : Env)
    (image_list : list ExtractFeatures.Frame) (dirs : list string)
    (mv : list (string * (Z * string))) :
  ExtractFeatures.scan env image_list dirs = Ret mv -> NoDup dirs ->
  Dict.keys mv = match image_list with [] => [] | _ :: _ => dirs end /\
  NoDup (Dict.keys mv) /\
  (forall dir, dir ∉ dirs -> Dict.getitem mv dir = None).
Proof.
  intros Hscan Hnd.
  pose proof (scan_keys_any env _ _ _ Hscan Hnd) as Hkeys.
  split; [exact Hkeys|]. split.
  - rewrite Hkeys. destruct image_list; [constructor | exact Hnd].
  - intros dir Hout. apply getitem_None. rewrite Hkeys.
    destruct image_list; [apply not_elem_of_nil | exact Hout].
Qed.

Lemma scan_keys_are_dirs_witness :
  Dict.keys [("table", (0, "0001.png")); ("chair", (6, "0002.png"))]
  = ["table"; "chair"].
Proof.
  assert (NoDup ["table"; "chair"]) as Hnd.
  { apply NoDup_cons. split; [|apply NoDup_singleton].
    intros H. apply list_elem_of_singleton in H. discriminate. }
  apply (scan_keys_are_dirs example_world [frame1; frame2] ["table"; "chair"]
           _ eq_refl Hnd).
Defined.

(** X12. After a scan that returns, over distinct directory names and at
    least one frame, the record of every directory is the score and the
    file of a scanned frame; no frame has a greater score for the
    directory, and every frame scanned before it has a smaller one. *)
Theorem scan_records_first_maximum (env : Env)
    (image_list : list ExtractFeatures.Frame) (dirs : list string)
    (mv : list (string * (Z * string))) (dir : string) :
  ExtractFeatures.scan env image_list dirs = Ret mv -> NoDup dirs ->
  dir ∈ dirs -> image_list <> [] ->
  exists (i : nat) (frame : ExtractFeatures.Frame) (s : Z),
    image_list !! i = Some frame /\
    ExtractFeatures.visibility_score env frame dir = Ret s /\
    Dict.getitem mv dir = Some (s, ExtractFeatures.file frame) /\
    forall (j : nat) (fr : ExtractFeatures.Frame) (s' : Z),
      image_list !! j = Some fr ->
      ExtractFeatures.visibility_score env fr dir = Ret s' ->
      s' <= s /\ ((j < i)%nat -> s' < s).
Proof.
  intros Hscan Hnd Hd Hne.
  destruct (scan_first_maximum env _ _ _ _ Hscan Hnd Hd Hne)
    as (i & frame & s & Hi & Hs & Hget & Hmax).
  exists i, frame, s. split; [exact Hi|]. split; [exact Hs|].
  split; [exact Hget | exact Hmax].
Qed.

Lemma scan_records_first_maximum_witness :
  exists (i : nat) (frame : ExtractFeatures.Frame) (s : Z),
    [frame1; frame2] !! i = Some frame /\
    ExtractFeatures.visibility_score example_world frame "chair" = Ret s /\
    Dict.getitem [("table", (0, "0001.png")); ("chair", (6, "0002.png"))]
      "chair" = Some (s, ExtractFeatures.file frame).
Proof.
  assert (NoDup ["table"; "chair"]) as Hnd.
  { apply NoDup_cons. split; [|apply NoDup_singleton].
    intros H. apply list_elem_of_singleton in H. discriminate. }
  destruct (scan_records_first_maximum example_world [frame1; frame2]
              ["table"; "chair"] _ "chair" eq_refl Hnd)
    as (i & frame & s & Hi & Hs & Hget & _).
  - right. left.
  - discriminate.
  - exists i, frame, s. repeat split; assumption.
Defined.

(** X14. The score kept for a directory does not depend on the order of the
    frames: when a scan over distinct directory names returns, the scan of
    the same frames in any other order returns too, with the same keys and,
    for every directory, the same score (the file kept may differ when two
    frames tie). *)
Theorem scan_score_ignores_frame_order (env : Env)
    (image_list image_list' : list ExtractFeatures.Frame)
    (dirs : list string) (mv : list (string * (Z * string))) :
  ExtractFeatures.scan env image_list dirs = Ret mv -> NoDup dirs ->
  image_list' ≡ₚ image_list ->
  exists mv',
    ExtractFeatures.scan env image_list' dirs = Ret mv' /\
    Dict.keys mv' = Dict.keys mv /\
    forall dir, fst <$> Dict.getitem mv' dir = fst <$> Dict.getitem mv dir.
Proof.
  intros Hscan Hnd Hp.
  destruct (proj2 (scan_returns_iff env image_list' dirs)) as [mv' Hscan'].
  { destruct (proj1 (scan_returns_iff env image_list dirs)) as [Hfit Hmasks];
      [eauto|].
    split.
    - intros frame Hf. rewrite Hp in Hf. apply Hfit, Hf.
    - intros frame dir Hf Hd. rewrite Hp in Hf. apply Hmasks; assumption. }
  exists mv'. split; [exact Hscan'|].
  pose proof (scan_keys_any env _ _ _ Hscan Hnd) as Hk.
  pose proof (scan_keys_any env _ _ _ Hscan' Hnd) as Hk'.
  assert (Dict.keys mv' = Dict.keys mv) as Hkeys.
  { rewrite Hk, Hk'. destruct image_list as [|fr frames].
    - apply Permutation_nil_r in Hp. rewrite Hp. reflexivity.
    - destruct image_list'; [|reflexivity].
      symmetry in Hp. apply Permutation_nil_r in Hp. discriminate. }
  split; [exact Hkeys|]. intros dir.
  destruct (decide (dir ∈ dirs /\ image_list <> [])) as [[Hd Hne]|Hno].
  - assert (image_list' <> []) as Hne'.
    { intros ->. apply Permutation_nil_l in Hp. congruence. }
    destruct (scan_first_maximum env _ _ _ _ Hscan Hnd Hd Hne)
      as (i & fr & s & Hi & Hs & Hget & Hmax).
    destruct (scan_first_maximum env _ _ _ _ Hscan' Hnd Hd Hne')
      as (i' & fr' & s' & Hi' & Hs' & Hget' & Hmax').
    rewrite Hget, Hget'. cbn. f_equal.
    assert (fr ∈ image_list') as Hin.
    { rewrite Hp. eapply list_elem_of_lookup_2, Hi. }
    assert (fr' ∈ image_list) as Hin'.
    { rewrite <- Hp. eapply list_elem_of_lookup_2, Hi'. }
    apply list_elem_of_lookup_1 in Hin as [j Hj].
    apply list_elem_of_lookup_1 in Hin' as [j' Hj'].
    pose proof (Hmax' j fr s Hj Hs) as [? _].
    pose proof (Hmax j' fr' s' Hj' Hs') as [? _]. lia.
  - assert (dir ∉ Dict.keys mv) as Hout.
    { rewrite Hk. destruct image_list; [apply not_elem_of_nil|].
      intros Hd. apply Hno. split; [exact Hd | discriminate]. }
    rewrite (proj2 (getitem_None mv dir) Hout).
    rewrite <- Hkeys in Hout.
    rewrite (proj2 (getitem_None mv' dir) Hout). reflexivity.
Qed.

Lemma scan_score_ignores_frame_order_witness :
  exists mv',
    ExtractFeatures.scan example_world [frame2; frame1] ["table"; "chair"]
      = Ret mv' /\
    fst <$> Dict.getitem mv' "chair" = Some 6.
Proof.
  assert (NoDup ["table"; "chair"]) as Hnd.
  { apply NoDup_cons. split; [|apply NoDup_singleton].
    intros H. apply list_elem_of_singleton in H. discriminate. }
  destruct (scan_score_ignores_frame_order example_world [frame1; frame2]
              [frame2; frame1] ["table"; "chair"] _ eq_refl Hnd
              (perm_swap _ _ _))
    as (mv' & Hscan & _ & Hscore).
  exists mv'. split; [exact Hscan|]. rewrite Hscore. reflexivity.
Defined.

(** ** Exceptions *)

Lemma py_for_raises {A S : Type} (I : S -> Prop) (body : S -> A -> py S)
    (xs : list A) (s : S) (e : exn) :
  I s ->
  (forall s x s', x ∈ xs -> I s -> body s x = Ret s' -> I s') ->
  py_for body xs s = Raise e ->
  exists s' x, x ∈ xs /\ I s' /\ body s' x = Raise e.
Proof.
  revert s. induction xs as [|x xs IH]; intros s Hs Hstep Hraise;
    cbn in Hraise; [discriminate|].
  destruct (body s x) as [s1|e1] eqn:Hb; cbn in Hraise.
  - destruct (IH s1) as (s' & x' & Hx' & Hs' & Hb').
    + eapply Hstep; [left | exact Hs | exact Hb].
    + intros s2 x2 s3 Hx2. apply Hstep. right. exact Hx2.
    + exact Hraise.
    + exists s', x'. split; [right; exact Hx' | auto].
  - injection Hraise as <-. exists s, x. split; [left | auto].
Qed.

Section raise_facts.
Import Numpy ExtractFeatures.
Context (env : Env).

Lemma visibility_score_raises (frame : Frame) (dir : string) (e : exn) :
  visibility_score env frame dir = Raise e ->
  (e = FileNotFoundError /\
   open_mask env dir (file frame +:+ ".png") = None) \/
  (e = ValueError /\
   exists mask, open_mask env dir (file frame +:+ ".png") = Some mask /\
                entries mask = []).
Proof.
  unfold visibility_score. destruct (shape frame). intros Hraise.
  destruct (open_mask env dir (file frame +:+ ".png")) as [mask|];
    cbn in Hraise.
  - right. destruct (decide (entries mask = [])) as [Hnil|Hne].
    + rewrite (binarize_raises _ Hnil) in Hraise. injection Hraise as <-. eauto.
    + destruct (proj2 (binarize_returns_iff mask) Hne) as [md Hmd].
      rewrite Hmd in Hraise. discriminate.
  - left. injection Hraise as <-. auto.
Qed.

Lemma py_mapM_raises {A B : Type} (f : A -> py B) (xs : list A) (e : exn) :
  py_mapM f xs = Raise e -> exists x, x ∈ xs /\ f x = Raise e.
Proof.
  induction xs as [|x xs IH]; cbn; [discriminate|]. intros Hraise.
  destruct (f x) as [y|e1] eqn:Hf; cbn in Hraise.
  - destruct (py_mapM f xs) as [ys|e2]; cbn in Hraise; [discriminate|].
    destruct (IH Hraise) as (x' & Hx' & Hf').
    exists x'. split; [right; exact Hx' | exact Hf'].
  - injection Hraise as <-. exists x. split; [left | exact Hf].
Qed.

Lemma broadcast_raises {A B C : Type} (f : A -> B -> py C)
    (xs : list A) (ys : list B) (e : exn) :
  (forall x y e', f x y = Raise e' -> e' = ValueError) ->
  broadcast f xs ys = Raise e -> e = ValueError.
Proof.
  intros Hf. unfold broadcast. destruct (decide (length xs = length ys)).
  - intros Hraise. apply py_mapM_raises in Hraise as ([x y] & _ & Hxy).
    eapply Hf, Hxy.
  - destruct xs as [|x [|x' xs]].
    + destruct ys as [|y [|y' ys]]; intros Hraise.
      * injection Hraise as <-. reflexivity.
      * discriminate.
      * injection Hraise as <-. reflexivity.
    + intros Hraise. apply py_mapM_raises in Hraise as (y & _ & Hxy).
      eapply Hf, Hxy.
    + destruct ys as [|y [|y' ys]]; intros Hraise.
      * injection Hraise as <-. reflexivity.
      * apply py_mapM_raises in Hraise as (x0 & _ & Hxy). eapply Hf, Hxy.
      * injection Hraise as <-. reflexivity.
Qed.

Lemma np_mul_raises (a b : Tensor) (e : exn) :
  np_mul a b = Raise e -> e = ValueError.
Proof.
  unfold np_mul. apply broadcast_raises. intros ra rb e1.
  apply broadcast_raises. intros p q e2.
  apply broadcast_raises. intros u v e3. discriminate.
Qed.

Lemma masked_crop_raises (dir file : string) (e : exn) :
  masked_crop env dir file = Raise e ->
  e = FileNotFoundError \/ e = ValueError.
Proof.
  unfold masked_crop. intros Hraise.
  destruct (open_rgb env file) as [image|]; cbn in Hraise;
    [|injection Hraise as <-; auto].
  destruct (open_mask env dir (file +:+ ".png")) as [mask|]; cbn in Hraise;
    [|injection Hraise as <-; auto].
  destruct (binarize mask) as [md|e1] eqn:Hmd; cbn in Hraise.
  - right. eapply np_mul_raises, Hraise.
  - injection Hraise as <-. right.
    destruct (decide (entries mask = [])) as [Hnil|Hne].
    + rewrite (binarize_raises _ Hnil) in Hmd. congruence.
    + destruct (proj2 (binarize_returns_iff mask) Hne) as [md Hmd'].
      congruence.
Qed.

Lemma set_row_length {R : Type} (tbl tbl' : list R) (idx : nat) (row : R) :
  set_row tbl idx row = Ret tbl' -> length tbl' = length tbl.
Proof.
  unfold set_row. case_decide; [|discriminate].
  intros E. injection E as <-. apply length_insert.
Qed.

Lemma embed_object_length (mv : Visible) (d2i : list (string * nat))
    (tbl tbl' : list (Row env)) (dir : string) :
  embed_object env mv d2i tbl dir = Ret tbl' -> length tbl' = length tbl.
Proof.
  unfold embed_object. intros Hret.
  destruct (Dict.getitem mv dir) as [[s f]|]; cbn in Hret; [|discriminate].
  destruct (masked_crop env dir f); cbn in Hret; [|discriminate].
  destruct (Dict.getitem d2i dir); cbn in Hret; [|discriminate].
  eapply set_row_length, Hret.
Qed.

End raise_facts.

(** X13. The scan returns exactly when every frame has sides of at least 6
    pixels, which the reflection padding in front of the patch encoder asks
    for, and every directory found at the start has, for every frame, a
    mask file that holds at least one entry. When the first frame has a
    side below 6 pixels the scan ends with RuntimeError, whatever the mask
    files are. *)
Theorem scan_returns_exactly_when (env : Env)
    (image_list : list ExtractFeatures.Frame) (dirs : list string) :
  ((exists mv, ExtractFeatures.scan env image_list dirs = Ret mv) <->
   (forall frame, frame ∈ image_list ->
      6 <= (ExtractFeatures.shape frame).1 /\
      6 <= (ExtractFeatures.shape frame).2) /\
   (forall frame dir, frame ∈ image_list -> dir ∈ dirs ->
      exists mask,
        open_mask env dir (ExtractFeatures.file frame +:+ ".png") = Some mask /\
        Numpy.entries mask <> [])) /\
  (forall frame rest,
     image_list = frame :: rest ->
     ~ (6 <= (ExtractFeatures.shape frame).1 /\
        6 <= (ExtractFeatures.shape frame).2) ->
     ExtractFeatures.scan env image_list dirs = Raise RuntimeError).
Proof.
  split; [apply scan_returns_iff|].
  intros frame rest -> Hsmall. unfold ExtractFeatures.scan. cbn [py_for].
  rewrite scan_frame_cases, decide_False by exact Hsmall. reflexivity.
Qed.

(** X15. After a scan that returns, over distinct directory names, the
    lookups of the second loop cannot miss and its row index is inside
    the table: every key of [most_visible] has its record, has an index in
    [dir_to_idx], and that index is below the number of rows
    len(most_visible) of the table, so the row assignment of line 110
    goes through. *)
Theorem table_lookups_succeed (env : Env)
    (image_list : list ExtractFeatures.Frame) (dirs : list string)
    (mv : list (string * (Z * string))) :
  NoDup dirs ->
  ExtractFeatures.scan env image_list dirs = Ret mv ->
  forall dir, dir ∈ Dict.keys mv ->
    (exists score file, Dict.getitem mv dir = Some (score, file)) /\
    exists idx : nat,
      Dict.getitem (ExtractFeatures.dir_to_idx dirs) dir = Some idx /\
      (idx < length mv)%nat /\
      forall (clip_embeddings : list (Row env)) (row : Row env),
        length clip_embeddings = length mv ->
        ExtractFeatures.set_row clip_embeddings idx row
        = Ret (<[idx := row]> clip_embeddings).
Proof.
  intros Hnd Hscan dir Hdir.
  pose proof (scan_keys_any env _ _ _ Hscan Hnd) as Hkeys.
  destruct image_list as [|frame frames].
  { rewrite Hkeys in Hdir. apply elem_of_nil in Hdir. contradiction. }
  split.
  - destruct (proj2 (getitem_is_Some mv dir) Hdir) as [[s f] Hget]. eauto.
  - rewrite Hkeys in Hdir. destruct (sorted_index dirs dir Hdir) as [i Hi].
    assert (i < length mv)%nat as Hlt.
    { rewrite <- length_keys, Hkeys.
      rewrite <- (length_Permutation_proper _ _ (sorted_Permutation dirs)).
      eapply lookup_lt_Some, Hi. }
    exists i. split; [apply dir_to_idx_lookup; assumption|].
    split; [exact Hlt|].
    intros tbl row Hlen. unfold ExtractFeatures.set_row.
    rewrite decide_True by (rewrite Hlen; exact Hlt). reflexivity.
Qed.

Lemma table_lookups_succeed_witness :
  exists idx : nat,
    Dict.getitem (ExtractFeatures.dir_to_idx ["table"; "chair"]) "chair"
      = Some idx /\
    (idx < 2)%nat.
Proof.
  assert (NoDup ["table"; "chair"]) as Hnd.
  { apply NoDup_cons. split; [|apply NoDup_singleton].
    intros H. apply list_elem_of_singleton in H. discriminate. }
  destruct (table_lookups_succeed example_world [frame1; frame2]
              ["table"; "chair"] _ Hnd eq_refl "chair")
    as (_ & idx & Hidx & Hlt & _).
  - right. left.
  - exists idx. split; [exact Hidx | exact Hlt].
Defined.

(** ** The row index *)

Lemma StronglySorted_lookup_lt {A : Type} (R : relation A) (l : list A)
    (i j : nat) (x y : A) :
  StronglySorted R l -> (i < j)%nat ->
  l !! i = Some x -> l !! j = Some y -> R x y.
Proof.
  intros Hs. revert i j. induction Hs as [|a l Hs IH Hall]; intros i j Hij Hi Hj.
  - rewrite lookup_nil in Hi. discriminate.
  - destruct j as [|j]; [lia|]. cbn in Hj. destruct i as [|i]; cbn in Hi.
    + injection Hi as <-. rewrite Forall_forall in Hall.
      apply Hall. eapply list_elem_of_lookup_2, Hj.
    + apply (IH i j); [lia | assumption | assumption].
Qed.

(** X16. For distinct directory names, [dir_to_idx] and the sorted list of
    names are inverse to each other: a directory has the index i exactly
    when it stands at place i of the sorted list; a name that was not found
    has no index; every index is below the number of directories; and a
    directory has a smaller index than another exactly when its name comes
    first. *)
Theorem dir_to_idx_round_trip (dirs : list string) :
  NoDup dirs ->
  (forall (dir : string) (i : nat),
     Dict.getitem (ExtractFeatures.dir_to_idx dirs) dir = Some i <->
     ExtractFeatures.sorted dirs !! i = Some dir) /\
  (forall dir : string,
     Dict.getitem (ExtractFeatures.dir_to_idx dirs) dir = None <->
     dir ∉ dirs) /\
  (forall (dir : string) (i : nat),
     Dict.getitem (ExtractFeatures.dir_to_idx dirs) dir = Some i ->
     (i < length dirs)%nat) /\
  (forall (d1 d2 : string) (i1 i2 : nat),
     Dict.getitem (ExtractFeatures.dir_to_idx dirs) d1 = Some i1 ->
     Dict.getitem (ExtractFeatures.dir_to_idx dirs) d2 = Some i2 ->
     ((i1 <= i2)%nat <-> String.le d1 d2)).
Proof.
  intros Hnd.
  assert (forall dir, dir ∉ dirs ->
            Dict.getitem (ExtractFeatures.dir_to_idx dirs) dir = None) as Hout.
  { intros dir Hd. unfold ExtractFeatures.dir_to_idx.
    rewrite fold_setitem_other; [reflexivity|].
    rewrite sorted_Permutation. exact Hd. }
  assert (forall dir i,
            Dict.getitem (ExtractFeatures.dir_to_idx dirs) dir = Some i <->
            ExtractFeatures.sorted dirs !! i = Some dir) as Hiff.
  { intros dir i. split; [|apply dir_to_idx_lookup, Hnd].
    intros Hget. destruct (decide (dir ∈ dirs)) as [Hin|Hnin].
    - destruct (sorted_index dirs dir Hin) as [j Hj].
      rewrite (dir_to_idx_lookup dirs j dir Hnd Hj) in Hget.
      injection Hget as <-. exact Hj.
    - rewrite (Hout dir Hnin) in Hget. discriminate. }
  split; [exact Hiff|]. split; [|split].
  - intros dir. split; [|apply Hout].
    intros Hnone Hin. destruct (sorted_index dirs dir Hin) as [j Hj].
    rewrite (dir_to_idx_lookup dirs j dir Hnd Hj) in Hnone. discriminate.
  - intros dir i Hget. apply Hiff in Hget.
    rewrite <- (length_Permutation_proper _ _ (sorted_Permutation dirs)).
    eapply lookup_lt_Some, Hget.
  - intros d1 d2 i1 i2 H1 H2. apply Hiff in H1, H2.
    pose proof (Sorted_StronglySorted String.le _ (sorted_Sorted dirs)) as Hss.
    split.
    + intros Hle. destruct (decide (i1 = i2)) as [->|Hne].
      * rewrite H1 in H2. injection H2 as ->. reflexivity.
      * eapply (StronglySorted_lookup_lt String.le _ i1 i2); eauto. lia.
    + intros Hle. destruct (decide (i1 <= i2)%nat) as [|Hgt]; [assumption|].
      assert (String.le d2 d1) as Hle'.
      { eapply (StronglySorted_lookup_lt String.le _ i2 i1); eauto. lia. }
      assert (d1 = d2) as -> by (apply (anti_symm String.le); assumption).
      assert (i1 = i2) as ->.
      { eapply (NoDup_lookup (ExtractFeatures.sorted dirs));
          [apply sorted_NoDup, Hnd | exact H1 | exact H2]. }
      lia.
Qed.

Lemma dir_to_idx_round_trip_witness :
  Dict.getitem (ExtractFeatures.dir_to_idx ["table"; "chair"]) "lamp" = None.
Proof.
  assert (NoDup ["table"; "chair"]) as Hnd.
  { apply NoDup_cons. split; [|apply NoDup_singleton].
    intros H. apply list_elem_of_singleton in H. discriminate. }
  apply (dir_to_idx_round_trip ["table"; "chair"] Hnd).
  intros H. apply elem_of_cons in H as [H|H]; [discriminate|].
  apply list_elem_of_singleton in H. discriminate.
Defined.

(** X17. Over distinct directory names and at least one frame, when every
    frame has sides of at least 6 pixels, every directory has for every
    frame a mask file holding at least one entry, and the frame's image
    file is there and has the mask's shape, [extract_features] returns, and
    the table it returns has one row per directory. *)
Theorem extract_features_returns_table (env : Env)
    (frame : ExtractFeatures.Frame) (frames : list ExtractFeatures.Frame)
    (dirs : list string) :
  NoDup dirs ->
  (forall fr, fr ∈ frame :: frames ->
     6 <= (ExtractFeatures.shape fr).1 /\ 6 <= (ExtractFeatures.shape fr).2) ->
  (forall fr dir, fr ∈ frame :: frames -> dir ∈ dirs ->
     exists mask image,
       open_mask env dir (ExtractFeatures.file fr +:+ ".png") = Some mask /\
       Numpy.entries mask <> [] /\
       open_rgb env (ExtractFeatures.file fr) = Some image /\
       Numpy.same_shape mask image) ->
  exists table,
    ExtractFeatures.extract_features env (frame :: frames) dirs = Ret table /\
    length table = length dirs.
Proof.
  intros Hnd Hfit Hfiles.
  destruct (extract_features_returns env frame frames dirs Hnd Hfit Hfiles)
    as [table Hret].
  exists table. split; [exact Hret|].
  destruct (extract_features_table env _ _ _ _ Hnd Hret) as (mv & _ & _ & _ & ->).
  rewrite length_fmap. apply length_Permutation_proper, sorted_Permutation.
Qed.

(** ** Patch features *)

Section patch_facts.
Import PatchFeatures.
Context {F : Type}.

Lemma mapM_seq_lookup {B : Type} (f : nat -> option B) (n : nat) (l : list B) :
  mapM f (seq 0 n) = Some l ->
  length l = n /\ forall i, (i < n)%nat -> l !! i = f i.
Proof.
  intros Hm. apply mapM_Some_1 in Hm. split.
  - rewrite <- (Forall2_length _ _ _ Hm). apply length_seq.
  - intros i Hi.
    destruct (Forall2_lookup_l _ _ _ i i Hm) as (y & Hy & Hf).
    + apply lookup_seq_lt. exact Hi.
    + rewrite Hy, Hf. reflexivity.
Qed.

Lemma mapM_seq_is_Some {B : Type} (f : nat -> option B) (n : nat) :
  (forall i, (i < n)%nat -> is_Some (f i)) -> is_Some (mapM f (seq 0 n)).
Proof.
  intros Hf. apply mapM_is_Some_2, Forall_forall. intros i Hi.
  apply elem_of_seq in Hi. apply Hf. lia.
Qed.

Lemma length_chunks {A : Type} (n count : nat) (l : list A) :
  length (chunks n count l) = count.
Proof.
  revert l. induction count as [|count IH]; intros l; cbn; [reflexivity|].
  rewrite IH. reflexivity.
Qed.

Lemma lookup_chunks {A : Type} (n count : nat) (l : list A) (i : nat) :
  (i < count)%nat ->
  chunks n count l !! i = Some (take n (drop (i * n) l)).
Proof.
  revert l i. induction count as [|count IH]; intros l i Hi; [lia|].
  destruct i as [|i]; cbn [chunks].
  - reflexivity.
  - cbn [lookup list_lookup]. change (chunks n count (drop n l) !! i
      = Some (take n (drop (S i * n) l))).
    rewrite IH by lia. rewrite drop_drop. reflexivity.
Qed.

Lemma lookup_piece {A : Type} (n i j : nat) (l : list A) :
  (j < n)%nat -> take n (drop (i * n) l) !! j = l !! (i * n + j)%nat.
Proof. intros Hj. rewrite lookup_take_lt by exact Hj. apply lookup_drop. Qed.

Lemma length_concat_rect {A : Type} (x : list (list A)) (s : nat) :
  Forall (fun row => length row = s) x ->
  length (concat x) = (length x * s)%nat.
Proof.
  induction 1 as [|row x Hrow _ IH]; cbn; [reflexivity|].
  rewrite length_app, IH, Hrow. reflexivity.
Qed.

Lemma lookup_concat_rect {A : Type} (x : list (list A)) (s k t : nat) :
  Forall (fun row => length row = s) x -> (t < s)%nat ->
  concat x !! (k * s + t)%nat = x !! k ≫= (.!! t).
Proof.
  intros Hx Ht. revert k. induction Hx as [|row x Hrow _ IH]; intros k.
  - cbn. rewrite !lookup_nil. reflexivity.
  - cbn [concat]. destruct k as [|k].
    + cbn. rewrite lookup_app_l by lia. reflexivity.
    + rewrite lookup_app_r by (rewrite Hrow; lia).
      replace (S k * s + t - length row)%nat with (k * s + t)%nat
        by (rewrite Hrow; lia).
      apply IH.
Qed.

(** The tokens with their channels in front. *)
Lemma rearrange_bsc_bcs_spec (c s : nat) (tokens : list (list F)) :
  length tokens = s -> Forall (fun tok => length tok = c) tokens ->
  exists xT,
    rearrange_bsc_bcs c tokens = Some xT /\
    length xT = c /\
    Forall (fun col => length col = s) xT /\
    forall k t, (k < c)%nat -> xT !! k ≫= (.!! t) = tokens !! t ≫= (.!! k).
Proof.
  intros Hs Hc. unfold rearrange_bsc_bcs.
  assert (forall k, (k < c)%nat ->
            is_Some (mapM (fun tok : list F => tok !! k) tokens)) as Hsome.
  { intros k Hk. apply mapM_is_Some_2.
    eapply Forall_impl; [exact Hc|]. cbn. intros tok Htok.
    apply lookup_lt_is_Some_2. lia. }
  destruct (mapM_seq_is_Some _ c Hsome) as [xT HxT].
  destruct (mapM_seq_lookup _ _ _ HxT) as [Hlen Hrows].
  assert (forall k col, xT !! k = Some col ->
            Forall2 (fun tok y => tok !! k = Some y) tokens col) as Hcol.
  { intros k col Hk.
    assert (k < c)%nat as Hkc by (rewrite <- Hlen; eapply lookup_lt_Some, Hk).
    rewrite (Hrows k Hkc) in Hk. apply mapM_Some_1, Hk. }
  exists xT. split; [exact HxT|]. split; [exact Hlen|]. split.
  - apply Forall_lookup. intros k col Hk.
    rewrite <- (Forall2_length _ _ _ (Hcol k col Hk)). exact Hs.
  - intros k t Hk.
    destruct (lookup_lt_is_Some_2 xT k ltac:(lia)) as [col Hxk].
    rewrite Hxk. cbn. pose proof (Hcol k col Hxk) as H2.
    destruct (tokens !! t) as [tok|] eqn:Ht; cbn.
    + destruct (Forall2_lookup_l _ _ _ _ _ H2 Ht) as (y & Hy & Htk).
      rewrite Hy, Htk. reflexivity.
    + apply lookup_ge_None. apply lookup_ge_None in Ht.
      rewrite <- (Forall2_length _ _ _ H2). exact Ht.
Qed.

Lemma cell_index (h w i j : nat) :
  (i < h)%nat -> (j < w)%nat -> (i * w + j < h * w)%nat.
Proof. intros Hi Hj. nia. Qed.

(** Lines 60-65 on a grid of h rows and w columns: the cell (i, j) holds
    the token i * w + j. *)
Lemma patch_grid_row_major (h w : nat) (tokens : list (list F)) :
  length tokens = (h * w)%nat ->
  Forall (fun tok => length tok = DINO_FEATURES) tokens ->
  exists grid,
    (x ← rearrange_bsc_bcs DINO_FEATURES tokens;
     x ← reshape x DINO_FEATURES h w;
     rearrange_bchw_bhwc DINO_FEATURES h w x) = Some grid /\
    length grid = h /\
    Forall (fun row => length row = w) grid /\
    forall i j, (i < h)%nat -> (j < w)%nat ->
      grid !! i ≫= (.!! j) = tokens !! (i * w + j)%nat.
Proof.
  intros Hs Hc. set (C := DINO_FEATURES) in *.
  destruct (rearrange_bsc_bcs_spec C (h * w) tokens Hs Hc)
    as (xT & -> & HlenT & HrowsT & HxT).
  cbn [mbind option_bind]. unfold reshape.
  rewrite decide_True by (rewrite (length_concat_rect _ _ HrowsT); lia).
  cbn [mbind option_bind]. unfold rearrange_bchw_bhwc.
  set (x := chunks w h <$> chunks (h * w) C (concat xT)).
  assert (forall i j k, (i < h)%nat -> (j < w)%nat -> (k < C)%nat ->
            (block ← x !! k; row ← block !! i; row !! j)
            = tokens !! (i * w + j)%nat ≫= (.!! k)) as Hx.
  { intros i j k Hi Hj Hk. unfold x.
    rewrite list_lookup_fmap, (lookup_chunks _ _ _ _ Hk). cbn.
    rewrite (lookup_chunks _ _ _ _ Hi). cbn.
    rewrite (lookup_piece _ _ _ _ Hj).
    rewrite (lookup_piece _ _ _ _ (cell_index h w i j Hi Hj)).
    rewrite (lookup_concat_rect _ _ _ _ HrowsT (cell_index h w i j Hi Hj)).
    apply HxT, Hk. }
  assert (forall i j, (i < h)%nat -> (j < w)%nat ->
            mapM (fun k => block ← x !! k; row ← block !! i; row !! j)
                 (seq 0 C)
            = tokens !! (i * w + j)%nat) as Hcell.
  { intros i j Hi Hj.
    destruct (lookup_lt_is_Some_2 tokens (i * w + j)) as [tok Htok].
    { rewrite Hs. apply cell_index; assumption. }
    assert (length tok = C) as HtokC.
    { rewrite Forall_lookup in Hc. eapply Hc, Htok. }
    rewrite Htok. apply mapM_Some_2.
    apply Forall2_same_length_lookup_2; [rewrite length_seq; congruence|].
    intros k k' y Hk Hy. apply lookup_seq in Hk as [-> Hk].
    change (0 + k)%nat with k.
    rewrite (Hx i j k Hi Hj Hk), Htok. exact Hy. }
  assert (forall i, (i < h)%nat ->
            is_Some (mapM (fun j =>
                       mapM (fun k => block ← x !! k; row ← block !! i; row !! j)
                            (seq 0 C)) (seq 0 w))) as Hrow.
  { intros i Hi. apply mapM_seq_is_Some. intros j Hj.
    rewrite (Hcell i j Hi Hj). apply lookup_lt_is_Some_2.
    rewrite Hs. apply cell_index; assumption. }
  destruct (mapM_seq_is_Some _ h Hrow) as [grid Hgrid].
  destruct (mapM_seq_lookup _ _ _ Hgrid) as [Hlen Hrows].
  exists grid. split; [exact Hgrid|]. split; [exact Hlen|]. split.
  - apply Forall_lookup. intros i row Hi.
    assert (i < h)%nat as Hih by (rewrite <- Hlen; eapply lookup_lt_Some, Hi).
    rewrite (Hrows i Hih) in Hi.
    apply (mapM_seq_lookup _ _ _ Hi).
  - intros i j Hi Hj. rewrite (Hrows i Hi).
    destruct (Hrow i Hi) as [row Hr]. rewrite Hr. cbn.
    destruct (mapM_seq_lookup _ _ _ Hr) as [_ Hjs].
    rewrite (Hjs j Hj). apply Hcell; assumption.
Qed.

End patch_facts.

Lemma extract_features_returns_table_witness :
  exists table : list Tensor,
    ExtractFeatures.extract_features example_world [frame1; frame2]
      ["table"; "chair"] = Ret table /\
    length table = 2%nat.
Proof.
  assert (NoDup ["table"; "chair"]) as Hnd.
  { apply NoDup_cons. split; [|apply NoDup_singleton].
    intros H. apply list_elem_of_singleton in H. discriminate. }
  apply (extract_features_returns_table example_world frame1 [frame2]
           ["table"; "chair"] Hnd).
  { intros fr Hf.
    apply elem_of_cons in Hf as [->|Hf];
      [|apply list_elem_of_singleton in Hf as ->]; cbn; lia. }
  intros fr dir Hf Hd.
  apply elem_of_cons in Hf as [->|Hf];
    [|apply list_elem_of_singleton in Hf as ->];
    (apply elem_of_cons in Hd as [->|Hd];
     [|apply list_elem_of_singleton in Hd as ->]);
    eexists _, _; (split; [reflexivity|]); (split; [discriminate|]);
    (split; [reflexivity|]); repeat constructor.
Defined.

(** X18. When the patch encoder returns as many tokens as the grid has
    cells, each of 768 channels, the features laid out by lines 60-65 have
    the grid's rows and columns, and the cell in row i and column j holds
    the token number i * columns + j, unchanged: the tokens fill the grid
    row by row. *)
Theorem dino_features_row_major {F : Type} (g : GridAligner.StrideGrid)
    (tokens : list (list F)) :
  let h := Z.to_nat (GridAligner.grid_shape g).1 in
  let w := Z.to_nat (GridAligner.grid_shape g).2 in
  length tokens = (h * w)%nat ->
  Forall (fun tok => length tok = PatchFeatures.DINO_FEATURES) tokens ->
  exists grid : list (list (list F)),
    PatchFeatures.dino_features g PatchFeatures.DINO_FEATURES tokens
      = Some grid /\
    length grid = h /\
    Forall (fun row => length row = w) grid /\
    forall i j : nat, (i < h)%nat -> (j < w)%nat ->
      grid !! i ≫= (.!! j) = tokens !! (i * w + j)%nat.
Proof.
  intros h w Hs Hc. unfold PatchFeatures.dino_features.
  destruct (GridAligner.grid_shape g) as [gh gw] eqn:Hg. cbn in h, w.
  apply patch_grid_row_major; assumption.
Qed.

Lemma dino_features_row_major_witness :
  exists grid : list (list (list Z)),
    PatchFeatures.dino_features
      {| GridAligner.H_14 := 14; GridAligner.W_14 := 28;
         GridAligner.crop :=
           {| GridAligner.padding_top := 0; GridAligner.padding_bottom := 0;
              GridAligner.padding_left := 0; GridAligner.padding_right := 0 |} |}
      PatchFeatures.DINO_FEATURES
      [replicate 768 1; replicate 768 2] = Some grid /\
    grid !! 0%nat ≫= (.!! 1%nat) = Some (replicate 768 2).
Proof.
  destruct (dino_features_row_major
              {| GridAligner.H_14 := 14; GridAligner.W_14 := 28;
                 GridAligner.crop :=
                   {| GridAligner.padding_top := 0;
                      GridAligner.padding_bottom := 0;
                      GridAligner.padding_left := 0;
                      GridAligner.padding_right := 0 |} |}
              [replicate 768 1; replicate 768 2])
    as (grid & Hgrid & _ & _ & Hcells).
  - reflexivity.
  - repeat constructor; apply length_replicate.
  - exists grid. split; [exact Hgrid|].
    apply (Hcells 0%nat 1%nat); vm_compute; lia.
Defined.

(** X19. When the patch encoder returns tokens of 768 channels but not as
    many as the grid has cells, the reshape of line 62 fails: no features
    are laid out. *)
Theorem dino_features_wrong_count {F : Type} (g : GridAligner.StrideGrid)
    (tokens : list (list F)) :
  Forall (fun tok => length tok = PatchFeatures.DINO_FEATURES) tokens ->
  length tokens <> (Z.to_nat (GridAligner.grid_shape g).1
                    * Z.to_nat (GridAligner.grid_shape g).2)%nat ->
  PatchFeatures.dino_features g PatchFeatures.DINO_FEATURES tokens = None.
Proof.
  intros Hc Hne. unfold PatchFeatures.dino_features.
  destruct (GridAligner.grid_shape g) as [gh gw]. cbn [fst snd] in Hne.
  destruct (rearrange_bsc_bcs_spec PatchFeatures.DINO_FEATURES
              (length tokens) tokens eq_refl Hc)
    as (xT & -> & HlenT & HrowsT & _).
  cbn [mbind option_bind]. unfold PatchFeatures.reshape.
  rewrite decide_False; [reflexivity|].
  rewrite (length_concat_rect _ _ HrowsT), HlenT.
  unfold PatchFeatures.DINO_FEATURES. lia.
Qed.

Lemma dino_features_wrong_count_witness :
  PatchFeatures.dino_features
    {| GridAligner.H_14 := 14; GridAligner.W_14 := 28;
       GridAligner.crop :=
         {| GridAligner.padding_top := 0; GridAligner.padding_bottom := 0;
            GridAligner.padding_left := 0; GridAligner.padding_right := 0 |} |}
    PatchFeatures.DINO_FEATURES [replicate 768 1] = None.
Proof.
  apply (dino_features_wrong_count _ [replicate 768 1]).
  - repeat constructor; apply length_replicate.
  - vm_compute. lia.
Defined.

(** ** The image-loading loop *)

Section driver_more.
Import Driver.
Context (env : Env).

Lemma load_image_returns (d : Z) (st st' : State) (file : string)
    (image : option (Z * Z)) :
  load_image env d st (file, image) = Ret st' ->
  exists h w res,
    image = Some (h, w) /\
    img_list st' = img_list st ++ [(res, file)] /\
    ((globals st' = globals st /\ printed st' = printed st) \/
     (WARNED (globals st) = Some false /\
      WARNED (globals st') = Some true /\
      printed st' = printed st ++ [large_image_warning] /\
      d = -1 /\ 1080 < h)).
Proof.
  unfold load_image, choose_scale. intros Hret.
  destruct image as [[h w]|]; cbn in Hret; [|discriminate].
  exists h, w. destruct (d =? -1) eqn:Hd.
  - apply Z.eqb_eq in Hd. destruct (h >? 1080) eqn:Hh.
    + apply Z.gtb_gt in Hh.
      destruct (WARNED (globals st)) as [[|]|] eqn:Hw; cbn in Hret;
        [| |discriminate]; injection Hret as <-; cbn;
        eexists; (split; [reflexivity|]); (split; [reflexivity|]).
      * left. auto.
      * right. repeat split; auto; lia.
    + cbn in Hret. injection Hret as <-. cbn.
      eexists. split; [reflexivity|]. split; [reflexivity|]. left. auto.
  - destruct (d =? 0); cbn in Hret; [discriminate|].
    injection Hret as <-. cbn.
    eexists. split; [reflexivity|]. split; [reflexivity|]. left. auto.
Qed.

Lemma load_image_raises (d : Z) (st : State) (file : string)
    (image : option (Z * Z)) (e : exn) :
  load_image env d st (file, image) = Raise e ->
  (e = AttributeError /\ image = None) \/
  (e = NameError /\ d = -1 /\ WARNED (globals st) = None /\
   exists h w, image = Some (h, w) /\ 1080 < h) \/
  (e = ZeroDivisionError /\ d = 0 /\ is_Some image).
Proof.
  unfold load_image, choose_scale. intros Hraise.
  destruct image as [[h w]|]; cbn in Hraise;
    [|injection Hraise as <-; auto].
  right. destruct (d =? -1) eqn:Hd.
  - apply Z.eqb_eq in Hd. destruct (h >? 1080) eqn:Hh; [|discriminate].
    apply Z.gtb_gt in Hh.
    destruct (WARNED (globals st)) as [[|]|] eqn:Hw; cbn in Hraise;
      try discriminate.
    injection Hraise as <-. left. split; [reflexivity|].
    split; [exact Hd|]. split; [reflexivity|].
    exists h, w. split; [reflexivity | lia].
  - destruct (d =? 0) eqn:H0; cbn in Hraise; [|discriminate].
    apply Z.eqb_eq in H0. injection Hraise as <-. right.
    split; [reflexivity|]. split; [exact H0 | eauto].
Qed.

Lemma loop_keeps_files (d : Z) (files : list (string * option (Z * Z)))
    (st st' : State) :
  py_for (load_image env d) files st = Ret st' ->
  (img_list st').*2 = (img_list st).*2 ++ files.*1 /\
  Forall (fun entry => is_Some entry.2) files /\
  ((globals st' = globals st /\ printed st' = printed st) \/
   (WARNED (globals st) = Some false /\ WARNED (globals st') = Some true /\
    printed st' = printed st ++ [large_image_warning] /\ d = -1 /\
    Exists (fun entry => exists h w, entry.2 = Some (h, w) /\ 1080 < h) files)).
Proof.
  revert st. induction files as [|[file image] files IH]; intros st Hret.
  - cbn in Hret. injection Hret as <-. rewrite app_nil_r. auto.
  - cbn [py_for] in Hret.
    destruct (load_image env d st (file, image)) as [st1|e] eqn:Hstep;
      cbn in Hret; [|discriminate].
    destruct (load_image_returns _ _ _ _ _ Hstep)
      as (h & w & res & -> & Himg & Hflag).
    destruct (IH _ Hret) as (Hnames & Hread & Hflag').
    split; [|split].
    + rewrite Hnames, Himg, fmap_app, <- app_assoc. reflexivity.
    + constructor; [cbn; eauto | exact Hread].
    + destruct Hflag as [[Hg Hp]|(Hw0 & Hw1 & Hp & Hd & Hh)].
      * destruct Hflag' as [[Hg' Hp']|(Hw0' & Hw1' & Hp' & Hd' & Hex)].
        -- left. split; congruence.
        -- right. repeat split; try congruence. right. exact Hex.
      * destruct Hflag' as [[Hg' Hp']|(Hw0' & _)]; [|congruence].
        right. repeat split; try congruence. left. cbn. eauto.
Qed.

Lemma loop_raises (d : Z) (files : list (string * option (Z * Z)))
    (st : State) (e : exn) :
  py_for (load_image env d) files st = Raise e ->
  (e = AttributeError /\ Exists (fun entry => entry.2 = None) files) \/
  (e = NameError /\ d = -1 /\
   Exists (fun entry => exists h w, entry.2 = Some (h, w) /\ 1080 < h) files) \/
  (e = ZeroDivisionError /\ d = 0).
Proof.
  intros Hraise.
  destruct (py_for_raises (fun _ => True) _ _ _ _ I (fun _ _ _ _ _ _ => I) Hraise)
    as (st' & [file image] & Hin & _ & Hstep).
  destruct (load_image_raises _ _ _ _ _ Hstep)
    as [[-> ->]|[(-> & Hd & _ & h & w & -> & Hh)|(-> & Hd & _)]].
  - left. split; [reflexivity|]. apply Exists_exists. eauto.
  - right. left. split; [reflexivity|]. split; [exact Hd|].
    apply Exists_exists. exists (file, Some (h, w)). cbn. eauto.
  - right. right. auto.
Qed.

End driver_more.

(** X20. When the loop of the entry point returns, whatever the downsample
    setting and the globals, [img_list] holds one entry per file, in the
    order of the files and under their names, and every file was decoded. *)
Theorem main_loop_keeps_files (env : Env) (downsample : Z) (g : Driver.Globals)
    (files : list (string * option (Z * Z))) (st : Driver.State) :
  Driver.main_loop env downsample g files = Ret st ->
  (Driver.img_list st).*2 = files.*1 /\
  length (Driver.img_list st) = length files /\
  Forall (fun entry => is_Some entry.2) files.
Proof.
  unfold Driver.main_loop. intros Hret.
  destruct (loop_keeps_files env _ _ _ _ Hret) as (Hnames & Hread & _).
  cbn in Hnames. split; [exact Hnames|]. split; [|exact Hread].
  rewrite <- (length_fmap snd (Driver.img_list st)), Hnames.
  apply length_fmap.
Qed.

Lemma main_loop_keeps_files_witness :
  (Driver.img_list
     {| Driver.globals := Driver.initial_globals; Driver.printed := [];
        Driver.img_list := [((1280, 720), "a.png"); ((1920, 1080), "b.png")] |}).*2
  = ["a.png"; "b.png"].
Proof.
  apply (main_loop_keeps_files example_world (-1) Driver.initial_globals
           [("a.png", Some (720, 1280)); ("b.png", Some (1080, 1920))] _
           eq_refl).
Defined.

(** X21. A run of the loop that returns prints the large-image warning at
    most once, and only with downsample -1, an image higher than 1080 and
    [WARNED] bound to False at the start, in which case it ends bound to
    True; in every other returning run nothing is printed and the globals
    are as they were. Started with [WARNED] unbound, as the script starts
    it, a returning run never prints the warning. *)
Theorem warning_printed_at_most_once (env : Env) (downsample : Z)
    (g : Driver.Globals) (files : list (string * option (Z * Z)))
    (st : Driver.State) :
  Driver.main_loop env downsample g files = Ret st ->
  ((Driver.printed st = [] /\ Driver.globals st = g) \/
   (Driver.printed st = [Driver.large_image_warning] /\
    Driver.WARNED g = Some false /\
    Driver.WARNED (Driver.globals st) = Some true /\
    downsample = -1 /\
    Exists (fun entry => exists h w, entry.2 = Some (h, w) /\ 1080 < h) files)) /\
  (g = Driver.initial_globals ->
   Driver.printed st = [] /\ Driver.globals st = g).
Proof.
  unfold Driver.main_loop. intros Hret.
  destruct (loop_keeps_files env _ _ _ _ Hret) as (_ & _ & Hflag).
  cbn in Hflag.
  destruct Hflag as [[Hg Hp]|(Hw0 & Hw1 & Hp & Hd & Hex)].
  - split; [left; auto | auto].
  - split; [right; auto|]. intros ->. discriminate.
Qed.

Lemma warning_printed_at_most_once_witness :
  exists st,
    Driver.main_loop example_world (-1) {| Driver.WARNED := Some false |}
      [("a.png", Some (2160, 3840)); ("b.png", Some (2160, 3840))] = Ret st /\
    Driver.printed st = [Driver.large_image_warning].
Proof.
  eexists. split; [reflexivity|].
  destruct (warning_printed_at_most_once example_world (-1)
              {| Driver.WARNED := Some false |}
              [("a.png", Some (2160, 3840)); ("b.png", Some (2160, 3840))]
              _ eq_refl) as [[[Hp _]|[Hp _]] _].
  - discriminate Hp.
  - exact Hp.
Defined.

(** X22. With the default downsample setting -1 and [WARNED] unbound, the
    loop returns exactly when every file decodes to an image of height at
    most 1080; otherwise it ends with AttributeError, some file not
    decoding, or with NameError, some image being higher than 1080, and
    with nothing else. *)
Theorem default_run_returns_exactly_when (env : Env)
    (files : list (string * option (Z * Z))) :
  ((exists st,
      Driver.main_loop env (-1) Driver.initial_globals files = Ret st) <->
   Forall (fun entry => exists h w, entry.2 = Some (h, w) /\ h <= 1080) files) /\
  (forall e,
     Driver.main_loop env (-1) Driver.initial_globals files = Raise e ->
     (e = AttributeError /\ Exists (fun entry => entry.2 = None) files) \/
     (e = NameError /\
      Exists (fun entry => exists h w, entry.2 = Some (h, w) /\ 1080 < h)
             files)).
Proof.
  split.
  - split.
    + intros [st Hret].
      destruct (Driver.main_loop env (-1) Driver.initial_globals files)
        as [st'|e] eqn:Hloop; [|discriminate].
      unfold Driver.main_loop in Hloop.
      destruct (loop_keeps_files env _ _ _ _ Hloop) as (_ & Hread & _).
      apply Forall_forall. intros [file image] Hin.
      destruct (proj1 (Forall_forall _ _) Hread _ Hin) as [[h w] Himg].
      cbn in Himg. subst image.
      exists h, w. split; [reflexivity|].
      destruct (decide (h <= 1080)) as [|Hbig]; [assumption|]. exfalso.
      rewrite (loop_large env files
                 {| Driver.globals := Driver.initial_globals;
                    Driver.printed := []; Driver.img_list := [] |}
                 eq_refl Hread) in Hloop; [discriminate|].
      apply Exists_exists. exists (file, Some (h, w)).
      split; [exact Hin|]. cbn. exists h, w. split; [reflexivity | lia].
    + intros Hsmall. eexists. unfold Driver.main_loop. apply loop_small.
      * eapply Forall_impl; [exact Hsmall|]. cbn.
        intros entry (h & w & -> & _). eauto.
      * eapply Forall_impl; [exact Hsmall|]. cbn.
        intros entry (h & w & E & Hh) h' w' E'. rewrite E in E'.
        injection E' as <- <-. exact Hh.
  - intros e Hraise. unfold Driver.main_loop in Hraise.
    destruct (loop_raises env _ _ _ _ Hraise)
      as [H|[(-> & _ & Hex)|(_ & Hd)]]; [left; exact H | right; auto | lia].
Qed.

(** X23. A downsample setting of 0 never gets past the first file: the loop
    ends with ZeroDivisionError when the first file decodes and with
    AttributeError when it does not, whatever the image sizes and the
    globals are, and it returns only when there is no file at all. *)
Theorem downsample_zero_run (env : Env) (g : Driver.Globals)
    (files : list (string * option (Z * Z))) :
  ((exists st, Driver.main_loop env 0 g files = Ret st) <-> files = []) /\
  (forall file image rest,
     files = (file, Some image) :: rest ->
     Driver.main_loop env 0 g files = Raise ZeroDivisionError) /\
  (forall file rest,
     files = (file, None) :: rest ->
     Driver.main_loop env 0 g files = Raise AttributeError).
Proof.
  assert (forall file image rest,
            Driver.main_loop env 0 g ((file, Some image) :: rest)
            = Raise ZeroDivisionError) as Hzero.
  { intros file [h w] rest. reflexivity. }
  assert (forall file rest,
            Driver.main_loop env 0 g ((file, None) :: rest)
            = Raise AttributeError) as Hnone.
  { intros file rest. reflexivity. }
  split; [|split].
  - split.
    + intros [st Hret]. destruct files as [|[file [image|]] rest];
        [reflexivity | rewrite Hzero in Hret | rewrite Hnone in Hret];
        discriminate.
    + intros ->. eexists. reflexivity.
  - intros file image rest ->. apply Hzero.
  - intros file rest ->. apply Hnone.
Qed.

(** ** Frames of other shapes *)

Lemma score_ignores_frame_shape_witness :
  ExtractFeatures.scan example_world
    ((fun frame =>
        {| ExtractFeatures.shape := (50, 75);
           ExtractFeatures.file := ExtractFeatures.file frame |})
       <$> [frame1; frame2]) ["table"; "chair"]
  = ExtractFeatures.scan example_world [frame1; frame2] ["table"; "chair"].
Proof.
  pose proof (score_ignores_frame_shape example_world (fun _ => (50, 75))) as H.
  cbv zeta in H. destruct H as (_ & _ & H). apply H.
  constructor; [cbn; lia|]. constructor; [cbn; lia|]. constructor.
Defined.
